(** * The audio job pipeline of [server.js]

    A shallow embedding of the [AudioProcessor] class, the job registry
    [processingJobs] and the three HTTP handlers that touch them, followed
    by the properties of the pipeline.

    JavaScript objects are records, the registry ([new Map()]) and the
    [steps] object are finite maps, promises are programs of a small
    resumption monad whose suspension points are the awaited external
    operations (child processes, timers, the file system). *)

From stdpp Require Import gmap strings list fin_maps pretty.
From Stdlib Require Import Ascii ZArith QArith Qround.
#[local] Close Scope Q_scope.

(** ** Strings as JavaScript uses them *)

Module JS.

(** A string is held as the UTF-8 bytes of the JavaScript string, the
    form in which [fs.readFile(_, 'utf8')] and the decoded form fields
    find it and [fs.writeFile] leaves it.  A character of the Basic
    Multilingual Plane is one UTF-16 code unit and one to three
    bytes; a character beyond it is two code units and four bytes. *)
Definition is_byte (n : nat) (c : ascii) : bool := Nat.eqb (nat_of_ascii c) n.

(** The white space of one byte: the space, tab, line feed, vertical
    tab, form feed and carriage return. *)
Definition is_whitespace (c : ascii) : bool :=
  bool_decide (c = " "%char) ||
  (Nat.leb 9 (nat_of_ascii c) && Nat.leb (nat_of_ascii c) 13).

(** [white_space s]: how many bytes the white space character takes
    that [s] starts with, [0] when it starts with none.  White space
    is what [String.prototype.trim] strips, the WhiteSpace and
    LineTerminator of ECMAScript: the six characters above, U+00A0,
    U+1680, U+2000 to U+200A, U+2028, U+2029, U+202F, U+205F, U+3000
    and U+FEFF. *)
Definition white_space (s : string) : nat :=
  match s with
  | String c1 r1 =>
      if is_whitespace c1 then 1
      else
        match r1 with
        | String c2 r2 =>
            if is_byte 194 c1 && is_byte 160 c2 then 2
            else
              match r2 with
              | String c3 _ =>
                  if is_byte 225 c1 && is_byte 154 c2 && is_byte 128 c3 then 3
                  else if is_byte 226 c1 && is_byte 128 c2 &&
                          ((Nat.leb 128 (nat_of_ascii c3) && Nat.leb (nat_of_ascii c3) 138)
                           || is_byte 168 c3 || is_byte 169 c3 || is_byte 175 c3) then 3
                  else if is_byte 226 c1 && is_byte 129 c2 && is_byte 159 c3 then 3
                  else if is_byte 227 c1 && is_byte 128 c2 && is_byte 128 c3 then 3
                  else if is_byte 239 c1 && is_byte 187 c2 && is_byte 191 c3 then 3
                  else 0
              | EmptyString => 0
              end
        | EmptyString => 0
        end
  | EmptyString => 0
  end.

Fixpoint drop_bytes (n : nat) (s : string) : string :=
  match n, s with
  | S n', String _ r => drop_bytes n' r
  | _, _ => s
  end.

Fixpoint trimStart_within (fuel : nat) (s : string) : string :=
  match fuel with
  | O => s
  | S fuel' =>
      match white_space s with
      | O => s
      | n => trimStart_within fuel' (drop_bytes n s)
      end
  end.

(** [s.trimStart()] *)
Definition trimStart (s : string) : string := trimStart_within (String.length s) s.

(** [s] is white space from its first byte to its last. *)
Definition blank (s : string) : bool :=
  bool_decide (trimStart s = EmptyString).

(** [s.trimEnd()]: the string is cut where what is left of it is
    white space only. *)
Fixpoint trimEnd (s : string) : string :=
  match s with
  | EmptyString => EmptyString
  | String c r => if blank s then EmptyString else String c (trimEnd r)
  end.

(** [s.trim()] *)
Definition trim (s : string) : string := trimEnd (trimStart s).

(** Truthiness of a string value: [undefined] and [''] are falsy. *)
Definition truthy (v : option string) : bool :=
  match v with
  | None | Some EmptyString => false
  | Some _ => true
  end.

Fixpoint map_chars (f : ascii → ascii) (s : string) : string :=
  match s with
  | EmptyString => EmptyString
  | String c r => String (f c) (map_chars f r)
  end.

Definition is_alnum (c : ascii) : bool :=
  let n := nat_of_ascii c in
  (Nat.leb 48 n && Nat.leb n 57) ||
  (Nat.leb 65 n && Nat.leb n 90) ||
  (Nat.leb 97 n && Nat.leb n 122).

(** [s.replace(/[^a-zA-Z0-9]/g, '-')]: the expression has no [u]
    flag, so it replaces UTF-16 code units one by one.  A character
    of two to three bytes is one code unit and gives one hyphen at
    its first byte; a character of four bytes is a surrogate pair and
    gives two; the bytes that continue a character give nothing. *)
Fixpoint replace_non_alnum (s : string) : string :=
  match s with
  | EmptyString => EmptyString
  | String c r =>
      let n := nat_of_ascii c in
      if is_alnum c then String c (replace_non_alnum r)
      else if Nat.leb 128 n && Nat.leb n 191 then replace_non_alnum r
      else if Nat.leb 240 n && Nat.leb n 247
           then String "-" (String "-" (replace_non_alnum r))
      else String "-" (replace_non_alnum r)
  end.

(** [s.replace(/[:.]/g, '-')] *)
Definition replace_colon_dot (s : string) : string :=
  map_chars (λ c, if bool_decide (c = ":"%char) || bool_decide (c = "."%char)
                  then "-"%char else c) s.

(** [s.slice(0, n)], for the strings the server slices: time stamps,
    whose characters are one byte each. *)
Fixpoint slice0 (n : nat) (s : string) : string :=
  match n, s with
  | S n', String c r => String c (slice0 n' r)
  | _, _ => EmptyString
  end.

(** [path.join(a, b)] for a directory name and a file name: the
    arguments the server passes contain no separator and no dot
    segment, so normalisation leaves the concatenation as it is. *)
Definition path_join (a b : string) : string := a +:+ "/" +:+ b.

End JS.

(** ** Data model *)

(** The status strings of a job and of its steps. *)
Inductive Status := started | pending | processing | completed | error.

#[global] Instance Status_eq_dec : EqDecision Status.
Proof. solve_decision. Defined.

(** The [data] argument of [updateStep], spread into the step object. *)
Inductive StepData :=
| no_data
| with_outputPath (outputPath : string)
| with_error (message : string).

(** [{ status, ...data }] *)
Record Step := mkStep { step_status : Status; step_data : StepData }.

Record Metadata := mkMetadata {
  clientName : option string;
  caseNumber : option string;
  meetingNotes : option string;
  originalFileName : option string;
  uploadedAt : option string;
  (** truthiness of [metadata.attachToHubspot]; absent is falsy *)
  metadata_attachToHubspot : bool
}.

Record Results := mkResults {
  wavFile : option string;
  transcription : option string;
  summary : option string
}.

Record AudioProcessor := mkAudioProcessor {
  processId : string;
  audioFile : string;
  metadata : Metadata;
  status : Status;
  steps : gmap string Step;
  results : Results;
  this_error : option string
}.

(** Field assignments [this.f = v]. *)
Definition set_status (v : Status) (this : AudioProcessor) : AudioProcessor :=
  mkAudioProcessor (processId this) (audioFile this) (metadata this) v
    (steps this) (results this) (this_error this).

Definition set_steps (v : gmap string Step) (this : AudioProcessor) : AudioProcessor :=
  mkAudioProcessor (processId this) (audioFile this) (metadata this) (status this)
    v (results this) (this_error this).

Definition set_results (v : Results) (this : AudioProcessor) : AudioProcessor :=
  mkAudioProcessor (processId this) (audioFile this) (metadata this) (status this)
    (steps this) v (this_error this).

Definition set_error (v : string) (this : AudioProcessor) : AudioProcessor :=
  mkAudioProcessor (processId this) (audioFile this) (metadata this) (status this)
    (steps this) (results this) (Some v).

(** [this.steps[stepName] = { status, ...data }] *)
Definition put_step (stepName : string) (status : Status) (data : StepData)
    (this : AudioProcessor) : AudioProcessor :=
  set_steps (<[stepName := mkStep status data]> (steps this)) this.

Definition set_wavFile (v : string) (this : AudioProcessor) : AudioProcessor :=
  set_results (mkResults (Some v) (transcription (results this)) (summary (results this))) this.

Definition set_transcription (v : string) (this : AudioProcessor) : AudioProcessor :=
  set_results (mkResults (wavFile (results this)) (Some v) (summary (results this))) this.

Definition set_summary (v : string) (this : AudioProcessor) : AudioProcessor :=
  set_results (mkResults (wavFile (results this)) (transcription (results this)) (Some v)) this.

(** The constructor of the class. *)
Definition new_AudioProcessor (processId audioFile : string) (metadata : Metadata)
  : AudioProcessor :=
  {| processId := processId;
     audioFile := audioFile;
     metadata := metadata;
     status := started;
     steps := <["conversion" := mkStep pending no_data]>
              (<["transcription" := mkStep pending no_data]>
              (<["summary" := mkStep pending no_data]>
              (<["hubspot" := mkStep pending no_data]> ∅)));
     results := mkResults None None None;
     this_error := None |}.

(** [this.steps[name].status]; a missing key reads as [None]. *)
Definition step_of (this : AudioProcessor) (name : string) : option Status :=
  step_status <$> steps this !! name.

(** ** External operations and programs *)

(** What a child process reports: the ['close'] event with its exit code
    ([None] is JavaScript's [null], a child ended by a signal) and the
    collected output streams, or the ['error'] event of a failed launch. *)
Inductive ChildResult :=
| close (code : option Z) (stdout stderr : string)
| spawn_error (message : string).

(** What a child process reports that is given input: besides how it
    ended, the ['error'] event of its standard input stream when the
    input could not be written, as when the child has gone before it
    read the input ([EPIPE]). *)
Record PipedResult := mkPipedResult {
  child_result : ChildResult;
  stdin_error : option string
}.

(** A settled promise of the platform. *)
Inductive Settled (A : Type) :=
| fulfilled (a : A)
| rejected (message : string).
Arguments fulfilled {A} a.
Arguments rejected {A} message.

(** The operations a job waits for, indexed by what they answer:
    a child process, a child process whose standard input is written
    and ended, the timer of [transcribeAudio], the three calls of
    [fs.promises], and the timer of [attachToHubspot], which the source
    has in the place of the HubSpot call.  The two timers are promises
    around [setTimeout]: they can only resolve. *)
Inductive ext : Type → Type :=
| spawn (command : string) (args : list string) : ext ChildResult
| spawn_writing (command : string) (args : list string) (input : string) : ext PipedResult
| setTimeout (ms : nat) : ext unit
| fs_readFile (path : string) : ext (Settled string)
| fs_writeFile (path data : string) : ext (Settled unit)
| fs_unlink (path : string) : ext (Settled unit)
| hubspot_api (ms : nat) : ext unit.

(** Programs over one receiver object [this].  [Await] is a suspension
    point; [Detach] starts an [async] call whose promise nobody awaits;
    [Crash] is an ['error'] event that has no listener: Node raises it
    as an uncaught exception and the server process exits. *)
Inductive Prog (A : Type) : Type :=
| Ret (a : A)
| Throw (message : string)
| Crash (message : string)
| This (k : AudioProcessor → Prog A)
| Assign (f : AudioProcessor → AudioProcessor) (k : Prog A)
| JobsSet (k : Prog A)
| NewDate (k : string → Prog A)
| Await {B : Type} (e : ext B) (k : B → Prog A)
| Detach (p : Prog unit) (k : Prog A).
Arguments Ret {A} a.
Arguments Throw {A} message.
Arguments Crash {A} message.
Arguments This {A} k.
Arguments Assign {A} f k.
Arguments JobsSet {A} k.
Arguments NewDate {A} k.
Arguments Await {A B} e k.
Arguments Detach {A} p k.

Fixpoint bind {A B : Type} (p : Prog A) (f : A → Prog B) : Prog B :=
  match p with
  | Ret a => f a
  | Throw m => Throw m
  | Crash m => Crash m
  | This k => This (λ o, bind (k o) f)
  | Assign g k => Assign g (bind k f)
  | JobsSet k => JobsSet (bind k f)
  | NewDate k => NewDate (λ t, bind (k t) f)
  | Await e k => Await e (λ b, bind (k b) f)
  | Detach q k => Detach q (bind k f)
  end.

#[global] Instance Prog_ret : MRet Prog := @Ret.
#[global] Instance Prog_bind : MBind Prog := λ A B f p, bind p f.

(** [try { p } catch (e) { h e }] *)
Fixpoint try_catch {A : Type} (p : Prog A) (h : string → Prog A) : Prog A :=
  match p with
  | Ret a => Ret a
  | Throw m => h m
  | Crash m => Crash m
  | This k => This (λ o, try_catch (k o) h)
  | Assign g k => Assign g (try_catch k h)
  | JobsSet k => JobsSet (try_catch k h)
  | NewDate k => NewDate (λ t, try_catch (k t) h)
  | Await e k => Await e (λ b, try_catch (k b) h)
  | Detach q k => Detach q (try_catch k h)
  end.

Definition this : Prog AudioProcessor := This Ret.
Definition assign (f : AudioProcessor → AudioProcessor) : Prog unit := Assign f (Ret tt).
Definition processingJobs_set : Prog unit := JobsSet (Ret tt).
Definition new_Date_toISOString : Prog string := NewDate Ret.
Definition detach (p : Prog unit) : Prog unit := Detach p (Ret tt).

(** [await e] on a platform promise: a rejection is thrown. *)
Definition await {A : Type} (e : ext (Settled A)) : Prog A :=
  Await e (λ r, match r with fulfilled a => Ret a | rejected m => Throw m end).

(** [await e.catch(() => {})]: a rejection is swallowed. *)
Definition await_catch_ignore (e : ext (Settled unit)) : Prog unit :=
  Await e (λ _, Ret tt).

(** ** The methods of [AudioProcessor] *)

(** [`${code}`] for an exit code. *)
Definition code_to_string (code : option Z) : string :=
  match code with
  | Some n => pretty n
  | None => "null"
  end.

(** [new Date().toISOString().slice(0, 19).replace(/[:.]/g, '-')] *)
Definition timestamp_of (iso : string) : string :=
  JS.replace_colon_dot (JS.slice0 19 iso).

(** [v ? `_${v.replace(/[^a-zA-Z0-9]/g, '-')}` : ''] *)
Definition info_suffix (v : option string) : string :=
  match v with
  | Some s => if JS.truthy v then "_" +:+ JS.replace_non_alnum s else ""
  | None => ""
  end.

Definition transcriptFileName (timestamp : string) (md : Metadata) : string :=
  "transcript_" +:+ timestamp +:+ info_suffix (clientName md)
                +:+ info_suffix (caseNumber md) +:+ ".txt".

Definition summaryFileName (timestamp : string) (md : Metadata) : string :=
  "summary_" +:+ timestamp +:+ info_suffix (clientName md)
             +:+ info_suffix (caseNumber md) +:+ ".txt".

Definition transcriptSavePath (iso : string) (md : Metadata) : string :=
  JS.path_join "transcripts" (transcriptFileName (timestamp_of iso) md).

Definition summarySavePath (iso : string) (md : Metadata) : string :=
  JS.path_join "summaries" (summaryFileName (timestamp_of iso) md).

(** [path.join('temp', `${this.processId}.wav`)] *)
Definition wavOutputPath (processId : string) : string :=
  JS.path_join "temp" (processId +:+ ".wav").

Definition legalPrompt (transcription : string) : string :=
"**Situation** You are an expert legal secretary working in a law firm environment where case documentation and file management are critical to legal proceedings. You need to process court transcripts and depositions to create concise summaries for case file integration.

**Task** The assistant should analyze the provided transcript and create a structured summary suitable for inclusion in a legal case file. The assistant should extract key information, identify critical testimony, and organize findings in a format that legal professionals can quickly reference.

**Objective** Create a professional case file summary that enables legal team members to quickly understand the transcript's key points, evidence presented, and testimony given without reading the full document.

**Knowledge** Legal transcripts typically contain:
- Witness testimony under oath
- Attorney questioning (direct and cross-examination)
- Judicial rulings and objections
- Evidence presentations
- Procedural matters

Case file summaries must maintain accuracy and legal precision while condensing information. The summary should preserve the legal significance of statements and maintain chronological flow when relevant.

**Instructions** The assistant should:
1. Create a summary between 300-500 words maximum
2. Structure the output with clear headings: Case Information, Key Testimony, Evidence Presented, Notable Rulings, and Action Items
3. Use objective, professional language appropriate for legal documentation
4. Identify each witness by name and role when summarizing their testimony
5. When conflicting testimony occurs, note both positions without editorial commentary

**Transcript to Analyze:**
" +:+ transcription.

(** The three child processes: the command line of each [spawn] and,
    for ollama, what is written to its standard input. *)
Definition ffmpeg_spawn (inputPath outputPath : string) : ext ChildResult :=
  spawn "ffmpeg"
    ["-i"; inputPath; "-acodec"; "pcm_s16le"; "-ar"; "16000"; "-ac"; "1";
     outputPath; "-y"].

Definition whisper_spawn (dirname wavPath : string) : ext ChildResult :=
  let modelPath := JS.path_join (JS.path_join dirname "models") "ggml-base.en.bin" in
  spawn "whisper-cli"
    ["-m"; modelPath; "--output-txt"; "--no-timestamps"; "--language"; "en";
     wavPath].

Definition ollama_spawn (prompt : string) : ext PipedResult :=
  spawn_writing "ollama" ["run"; "gemma3:12b"] prompt.

(** What [process()] resolves to. *)
Record ProcessResult := mkProcessResult {
  result_transcription : string;
  result_summary : string;
  result_metadata : Metadata
}.

Section Methods.

(** [__dirname], the directory the server runs from. *)
Variable dirname : string.

Definition updateStep (stepName : string) (status : Status) (data : StepData)
  : Prog unit :=
  assign (put_step stepName status data) ;;
  processingJobs_set.

(** The [try]/[catch] around the body only sees a synchronous throw;
    the promise is returned, not awaited, so the rejections below leave
    the method as they are. *)
Definition convertAudioToWav : Prog string :=
  updateStep "conversion" processing no_data ;;
  o ← this;
  let inputPath := audioFile o in
  let outputPath := wavOutputPath (processId o) in
  r ← Await (ffmpeg_spawn inputPath outputPath) Ret;
  match r with
  | close code stdout stderr =>
      if bool_decide (code = Some 0%Z) then
        updateStep "conversion" completed (with_outputPath outputPath) ;;
        assign (set_wavFile outputPath) ;;
        Ret outputPath
      else
        updateStep "conversion" error (with_error "FFmpeg conversion failed") ;;
        Throw ("FFmpeg failed with code " +:+ code_to_string code)
  | spawn_error message =>
      updateStep "conversion" error (with_error message) ;;
      Throw message
  end.

Definition transcribeAudio (wavPath : string) : Prog string :=
  updateStep "transcription" processing no_data ;;
  r ← Await (whisper_spawn dirname wavPath) Ret;
  match r with
  | close code stdout stderr =>
      if bool_decide (code = Some 0%Z) then
        try_catch
          (let txtPath := wavPath +:+ ".txt" in
           Await (setTimeout 1000) Ret ;;
           transcription ← await (fs_readFile txtPath);
           updateStep "transcription" completed no_data ;;
           assign (set_transcription (JS.trim transcription)) ;;
           iso ← new_Date_toISOString;
           o ← this;
           let transcriptSavePath := transcriptSavePath iso (metadata o) in
           await (fs_writeFile transcriptSavePath (JS.trim transcription)) ;;
           await_catch_ignore (fs_unlink txtPath) ;;
           Ret (JS.trim transcription))
          (λ readError,
             updateStep "transcription" error
               (with_error "Failed to read transcript file") ;;
             Throw readError)
      else
        updateStep "transcription" error
          (with_error ("Whisper-cli failed with code " +:+ code_to_string code)) ;;
        Throw ("Whisper-cli failed with code " +:+ code_to_string code)
  | spawn_error message =>
      updateStep "transcription" error (with_error message) ;;
      Throw message
  end.

(** The prompt is written to the standard input of ollama with no
    listener for the ['error'] event of that stream: when the write
    fails the server stops.  The stream fails while the child is
    awaited, ahead of its ['close'] event, which is emitted once the
    streams of the child have closed: such a run ends where the child
    is awaited, whatever the child would have reported. *)
Definition generateSummary (transcription : string) : Prog string :=
  updateStep "summary" processing no_data ;;
  r ← Await (ollama_spawn (legalPrompt transcription)) Ret;
  match stdin_error r with
  | Some message => Crash message
  | None =>
      match child_result r with
      | close code stdout stderr =>
          if bool_decide (code = Some 0%Z) && JS.truthy (Some (JS.trim stdout)) then
            updateStep "summary" completed no_data ;;
            assign (set_summary (JS.trim stdout)) ;;
            iso ← new_Date_toISOString;
            o ← this;
            let summarySavePath := summarySavePath iso (metadata o) in
            try_catch
              (await (fs_writeFile summarySavePath (JS.trim stdout)))
              (λ saveError, Ret tt) ;;
            Ret (JS.trim stdout)
          else
            updateStep "summary" error (with_error "Summary generation failed") ;;
            Throw ("Ollama failed with code " +:+ code_to_string code)
      | spawn_error message =>
          updateStep "summary" error (with_error message) ;;
          Throw message
      end
  end.

(** The HubSpot call is a placeholder in the source: a promise around
    a one-second timer, which can only resolve, so that nothing in
    the [try] block throws and the [catch] block is never entered. *)
Definition attachToHubspot : Prog (bool * string) :=
  try_catch
    (updateStep "hubspot" processing no_data ;;
     Await (hubspot_api 1000) Ret ;;
     updateStep "hubspot" completed no_data ;;
     Ret (true, "Attached to HubSpot successfully"))
    (λ e,
       updateStep "hubspot" error (with_error e) ;;
       Throw e).

Definition cleanup : Prog unit :=
  try_catch
    (o ← this;
     if JS.truthy (wavFile (results o)) then
       match wavFile (results o) with
       | Some wav => await_catch_ignore (fs_unlink wav)
       | None => Ret tt
       end
     else Ret tt)
    (λ e, Ret tt).

Definition process : Prog ProcessResult :=
  try_catch
    (assign (set_status processing) ;;
     processingJobs_set ;;
     wavPath ← convertAudioToWav;
     transcription ← transcribeAudio wavPath;
     summary ← generateSummary transcription;
     o ← this;
     (if metadata_attachToHubspot (metadata o)
      then attachToHubspot ;; Ret tt
      else Ret tt) ;;
     assign (set_status completed) ;;
     processingJobs_set ;;
     detach cleanup ;;
     o ← this;
     Ret (mkProcessResult transcription summary (metadata o)))
    (λ e,
       assign (set_status error) ;;
       assign (set_error e) ;;
       processingJobs_set ;;
       Throw e).

End Methods.

(** ** Running one job to completion *)

(** Objects live in a heap; the registry and the pending tasks hold
    addresses, as the JavaScript values are references. *)
Abbreviation loc := nat (only parsing).

(** An issued external operation. *)
Definition event : Type := sigT ext.

Definition event_of {B : Type} (e : ext B) : event := existT B e.

(** What jobs share: the registry [processingJobs], the files the server
    has written, the wall clock, and the operations issued so far, each
    with the address of the object whose method issued it. *)
Record Shared := mkShared {
  processingJobs : gmap string loc;
  disk : gmap string string;
  now : string;
  issued : list (loc * event)
}.

Definition jobs_set (id : string) (l : loc) (s : Shared) : Shared :=
  mkShared (<[id := l]> (processingJobs s)) (disk s) (now s) (issued s).

Definition issue {B : Type} (l : loc) (e : ext B) (s : Shared) : Shared :=
  mkShared (processingJobs s) (disk s) (now s) (issued s ++ [(l, event_of e)]).

(** The effect of a completed operation on the files: a fulfilled
    [writeFile] leaves the file with its data, a fulfilled [unlink]
    removes it.  Files the child processes write are not tracked. *)
Definition disk_after {B : Type} (e : ext B) : B → gmap string string → gmap string string :=
  match e in ext B return B → gmap string string → gmap string string with
  | fs_writeFile path data =>
      λ r d, match r with fulfilled _ => <[path := data]> d | rejected _ => d end
  | fs_unlink path =>
      λ r d, match r with fulfilled _ => delete path d | rejected _ => d end
  | _ => λ _ d, d
  end.

(** The operation [e] completes at time [t] with answer [b]. *)
Definition settle {B : Type} (e : ext B) (b : B) (t : string) (s : Shared) : Shared :=
  mkShared (processingJobs s) (disk_after e b (disk s)) t (issued s).

(** The environment of a run: what each awaited operation answers and
    what the clock reads when it completes. *)
Record Oracle := mkOracle {
  answer : ∀ B : Type, ext B → B;
  clock : ∀ B : Type, ext B → string
}.

(** An awaited operation of the object at [l]: it is issued, and it
    completes with the answer and at the time [env] gives. *)
Definition awaited {B : Type} (env : Oracle) (l : loc) (e : ext B) (s : Shared) : Shared :=
  settle e (answer env B e) (clock env B e) (issue l e s).

Inductive Outcome (A : Type) :=
| returned (a : A)
| thrown (message : string)
| crashed (message : string).
Arguments returned {A} a.
Arguments thrown {A} message.
Arguments crashed {A} message.

(** [run env l p o s]: the program [p] of the object [o] at address [l]
    runs until its promise settles or the server stops, every awaited
    operation answered by [env].  A detached call runs to its end where
    it is started: nothing follows it in [process] that could observe
    the difference. *)
Fixpoint run {A : Type} (env : Oracle) (l : loc) (p : Prog A)
    (o : AudioProcessor) (s : Shared) {struct p}
  : Outcome A * AudioProcessor * Shared :=
  match p with
  | Ret a => (returned a, o, s)
  | Throw m => (thrown m, o, s)
  | Crash m => (crashed m, o, s)
  | This k => run env l (k o) o s
  | Assign f k => run env l k (f o) s
  | JobsSet k => run env l k o (jobs_set (processId o) l s)
  | NewDate k => run env l (k (now s)) o s
  | Await e k => run env l (k (answer env _ e)) o (awaited env l e s)
  | Detach q k =>
      let '(r, o', s') := run env l q o s in
      match r with
      | crashed m => (crashed m, o', s')
      | _ => run env l k o' s'
      end
  end.


(** ** The server: registry, handlers and pending tasks *)

Record UploadedFile := mkUploadedFile {
  file_path : string;
  originalname : string
}.

(** A request to [POST /api/process-audio]: [req.file] as multer leaves
    it and the text fields of the form, [req.body]. *)
Record Request := mkRequest {
  req_file : option UploadedFile;
  req_body : gmap string string
}.

(** The body of [GET /api/status/:processId]. *)
Record StatusResponse := mkStatusResponse {
  response_processId : string;
  response_status : Status;
  response_steps : gmap string Step;
  response_metadata : Metadata;
  response_transcription : option string;
  response_summary : option string;
  response_error : option string
}.

Inductive Reply :=
| json_started (processId : string)
| json_status (body : StatusResponse)
| json_attached
| json_error (http_status : nat) (message : string).

(** A promise chain waiting for an external operation. *)
Record Task := mkTask {
  task_this : loc;
  task_answer : Type;
  task_event : ext task_answer;
  task_resume : task_answer → Prog (option Reply)
}.

(** The server process: the objects, what they share, the pending
    tasks, the replies sent, and in [exited] the uncaught exception with
    which the process has stopped, if it has. *)
Record Server := mkServer {
  heap : list AudioProcessor;
  shared : Shared;
  tasks : list Task;
  sent : list Reply;
  exited : option string
}.

Definition respond (r : Reply) (σ : Server) : Server :=
  mkServer (heap σ) (shared σ) (tasks σ) (sent σ ++ [r]) (exited σ).

(** [processingJobs.get(id)] *)
Definition processingJobs_get (σ : Server) (id : string) : option AudioProcessor :=
  l ← processingJobs (shared σ) !! id; heap σ !! l.

(** How far a program gets without waiting. *)
Inductive Paused (A : Type) :=
| settled (r : Outcome A)
| waiting {B : Type} (e : ext B) (k : B → Prog A).
Arguments settled {A} r.
Arguments waiting {A B} e k.

Definition child_task (l : loc) (r : Paused unit) : list Task :=
  match r with
  | settled _ => []
  | waiting e k => [mkTask l _ e (λ b, k b ;; Ret None)]
  end.

(** [exec l p o s]: [p] runs on the object [o] at [l] up to its first
    suspension point, whose operation it issues.  A detached call runs
    up to its own first suspension point and is left as a task; should
    it crash, nothing runs after it. *)
Fixpoint exec {A : Type} (l : loc) (p : Prog A) (o : AudioProcessor) (s : Shared)
    {struct p} : Paused A * AudioProcessor * Shared * list Task :=
  match p with
  | Ret a => (settled (returned a), o, s, [])
  | Throw m => (settled (thrown m), o, s, [])
  | Crash m => (settled (crashed m), o, s, [])
  | This k => exec l (k o) o s
  | Assign f k => exec l k (f o) s
  | JobsSet k => exec l k o (jobs_set (processId o) l s)
  | NewDate k => exec l (k (now s)) o s
  | Await e k => (waiting e k, o, issue l e s, [])
  | Detach q k =>
      let '(rq, o1, s1, ts1) := exec l q o s in
      match rq with
      | settled (crashed m) => (settled (crashed m), o1, s1, ts1)
      | _ =>
          let '(rk, o2, s2, ts2) := exec l k o1 s1 in
          (rk, o2, s2, ts1 ++ child_task l rq ++ ts2)
      end
  end.

Definition top_task (l : loc) (r : Paused (option Reply)) : list Task :=
  match r with
  | settled _ => []
  | waiting e k => [mkTask l _ e k]
  end.

Definition top_reply (r : Paused (option Reply)) : list Reply :=
  match r with
  | settled (returned (Some r)) => [r]
  | _ => []
  end.

(** The exception with which a segment stops the server. *)
Definition top_exit (r : Paused (option Reply)) : option string :=
  match r with
  | settled (crashed m) => Some m
  | _ => None
  end.

(** A top-level promise chain of the object at [l] starts or resumes. *)
Definition start (l : loc) (p : Prog (option Reply)) (σ : Server) : Server :=
  match heap σ !! l with
  | None => σ
  | Some o =>
      let '(r, o', s', children) := exec l p o (shared σ) in
      mkServer (<[l := o']> (heap σ)) s'
               (tasks σ ++ children ++ top_task l r)
               (sent σ ++ top_reply r)
               (match top_exit r with Some m => Some m | None => exited σ end)
  end.

Definition set_clock (t : string) (σ : Server) : Server :=
  mkServer (heap σ)
           (mkShared (processingJobs (shared σ)) (disk (shared σ)) t (issued (shared σ)))
           (tasks σ) (sent σ) (exited σ).

Section Handlers.

Variable dirname : string.

(** The [metadata] literal of the submission handler: three text
    fields of the form, the name of the upload and the clock. *)
Definition request_metadata (body : gmap string string) (file : UploadedFile)
    (iso : string) : Metadata :=
  {| clientName := body !! "clientName";
     caseNumber := body !! "caseNumber";
     meetingNotes := body !! "meetingNotes";
     originalFileName := Some (originalname file);
     uploadedAt := Some iso;
     metadata_attachToHubspot := false |}.

(** [processor.process().catch(error => { console.error(...) })] *)
Definition process_in_background : Prog (option Reply) :=
  try_catch (process dirname ;; Ret None) (λ e, Ret None).

(** [job.attachToHubspot().then(...).catch(...)] of the attach handler. *)
Definition attach_and_reply : Prog (option Reply) :=
  try_catch (attachToHubspot ;; Ret (Some json_attached))
            (λ e, Ret (Some (json_error 500 e))).

(** [POST /api/process-audio]; [uuid] is what [uuidv4()] draws. *)
Definition post_process_audio (req : Request) (uuid : string) (σ : Server) : Server :=
  match req_file req with
  | None => respond (json_error 400 "No audio file provided") σ
  | Some file =>
      let processId := uuid in
      let metadata := request_metadata (req_body req) file (now (shared σ)) in
      let processor := new_AudioProcessor processId (file_path file) metadata in
      let l := length (heap σ) in
      let σ1 := mkServer (heap σ ++ [processor])
                         (jobs_set processId l (shared σ)) (tasks σ) (sent σ)
                         (exited σ) in
      let σ2 := start l process_in_background σ1 in
      respond (json_started processId) σ2
  end.

(** [GET /api/status/:processId] *)
Definition get_status (processId : string) (σ : Server) : Server :=
  match processingJobs_get σ processId with
  | None => respond (json_error 404 "Process not found") σ
  | Some job =>
      respond (json_status
        {| response_processId := processId;
           response_status := status job;
           response_steps := steps job;
           response_metadata := metadata job;
           response_transcription :=
             if bool_decide (status job = completed)
             then transcription (results job) else None;
           response_summary :=
             if bool_decide (status job = completed)
             then summary (results job) else None;
           response_error :=
             if bool_decide (status job = error)
             then this_error job else None |}) σ
  end.

(** [POST /api/hubspot-attach/:processId] *)
Definition post_hubspot_attach (processId : string) (σ : Server) : Server :=
  match processingJobs (shared σ) !! processId with
  | None => respond (json_error 404 "Process not found") σ
  | Some l =>
      match heap σ !! l with
      | None => respond (json_error 404 "Process not found") σ
      | Some job =>
          if bool_decide (status job ≠ completed) then
            respond (json_error 400 "Processing not completed") σ
          else
            start l attach_and_reply σ
      end
  end.

(** The external operation of the task at position [i] completes. *)
Definition resume (i : nat) (task : Task) (b : task_answer task) (σ : Server) : Server :=
  start (task_this task) (task_resume task b)
    (mkServer (heap σ)
              (settle (task_event task) b (now (shared σ)) (shared σ))
              (delete i (tasks σ)) (sent σ) (exited σ)).

(** One turn of the event loop: a request arrives, or the external
    operation of a pending task completes. *)
Inductive turn :=
| SubmitAudio (req : Request) (uuid : string)
| QueryStatus (processId : string)
| AttachHubspot (processId : string)
| Complete (i : nat) (task : Task) (b : task_answer task).

(** A server that has stopped takes no turn, and only a task that
    is pending can complete. *)
Definition enabled (σ : Server) (tn : turn) : Prop :=
  exited σ = None ∧
  match tn with
  | Complete i task _ => tasks σ !! i = Some task
  | _ => True
  end.

(** The turn [tn] taken when the clock reads [t]. *)
Definition take_turn (t : string) (tn : turn) (σ : Server) : Server :=
  match tn with
  | SubmitAudio req uuid => post_process_audio req uuid (set_clock t σ)
  | QueryStatus id => get_status id (set_clock t σ)
  | AttachHubspot id => post_hubspot_attach id (set_clock t σ)
  | Complete i task b => resume i task b (set_clock t σ)
  end.

Inductive step : Server → turn → Server → Prop :=
| step_turn σ t tn : enabled σ tn → step σ tn (take_turn t tn σ).

(** A sequence of turns. *)
Inductive steps_to : Server → list turn → Server → Prop :=
| steps_nil σ : steps_to σ [] σ
| steps_cons σ1 tn σ2 tns σ3 :
    step σ1 tn σ2 → steps_to σ2 tns σ3 → steps_to σ1 (tn :: tns) σ3.

End Handlers.

Definition initial_server : Server :=
  mkServer [] (mkShared ∅ ∅ "" []) [] [] None.

(** ** Vocabulary of the properties *)

(** The child ran and exited with status zero. *)
Definition exit_zero (r : ChildResult) : bool :=
  match r with
  | close code _ _ => bool_decide (code = Some 0%Z)
  | spawn_error _ => false
  end.

Definition is_spawn_of (command : string) (ev : event) : bool :=
  match projT2 ev with
  | spawn c _ | spawn_writing c _ _ => String.eqb c command
  | _ => false
  end.

Definition is_unlink_of (path : string) (ev : event) : bool :=
  match projT2 ev with
  | fs_unlink p => String.eqb p path
  | _ => false
  end.

Definition is_hubspot_call (ev : event) : bool :=
  match projT2 ev with
  | hubspot_api _ => true
  | _ => false
  end.

(** How many operations satisfying [P] the object at [l] has issued. *)
Definition issued_by (l : loc) (P : event → bool) (s : Shared) : nat :=
  length (List.filter (λ le : loc * event, bool_decide (le.1 = l) && P le.2) (issued s)).

(** The paths the object at [l] has asked [fs.writeFile] to write. *)
Definition written_paths (l : loc) (s : Shared) : list string :=
  omap (λ le : loc * event,
          if bool_decide (le.1 = l) then
            match projT2 le.2 with
            | fs_writeFile p _ => Some p
            | _ => None
            end
          else None) (issued s).

(** The files the object at [l] has asked [fs.writeFile] to write, each
    with its data. *)
Definition written_files (l : loc) (s : Shared) : list (string * string) :=
  omap (λ le : loc * event,
          if bool_decide (le.1 = l) then
            match projT2 le.2 with
            | fs_writeFile p data => Some (p, data)
            | _ => None
            end
          else None) (issued s).

(** The turn completes an [fs.unlink] of [path]. *)
Definition unlinks (path : string) (tn : turn) : bool :=
  match tn with
  | Complete i task b => is_unlink_of path (event_of (task_event task))
  | _ => false
  end.



Section Scenario.

Context (dirname : string) (env : Oracle) (id file : string) (md : Metadata).

Let wav := wavOutputPath id.
Let txt := wav +:+ ".txt".

(** The three adapters of a job resolve: ffmpeg exits with zero;
    whisper-cli exits with zero, its text file [raw] is read and the
    transcript is saved; ollama is given the prompt, exits with zero
    and prints [out], which is not blank. *)
Definition conversion_succeeds : Prop :=
  exit_zero (answer env _ (ffmpeg_spawn file wav)) = true.

Definition transcript_iso : string := clock env _ (fs_readFile txt).

Definition transcription_succeeds (raw : string) : Prop :=
  exit_zero (answer env _ (whisper_spawn dirname wav)) = true ∧
  answer env _ (fs_readFile txt) = fulfilled raw ∧
  answer env _ (fs_writeFile (transcriptSavePath transcript_iso md) (JS.trim raw))
    = fulfilled tt.

Definition summary_iso (raw : string) : string :=
  clock env _ (ollama_spawn (legalPrompt (JS.trim raw))).

Definition summary_succeeds (raw out : string) : Prop :=
  (∃ err, answer env _ (ollama_spawn (legalPrompt (JS.trim raw)))
          = mkPipedResult (close (Some 0%Z) out err) None) ∧
  JS.trim out ≠ "".

Definition adapters_succeed (raw out : string) : Prop :=
  conversion_succeeds ∧ transcription_succeeds raw ∧ summary_succeeds raw out.

End Scenario.

(** The tasks of the object at [l]. *)
Definition tasks_of (l : loc) (σ : Server) : list Task :=
  filter (λ t, task_this t = l) (tasks σ).

(** The program never assigns to [this.processId]. *)
Fixpoint keeps_id {A : Type} (p : Prog A) : Prop :=
  match p with
  | Ret _ | Throw _ | Crash _ => True
  | This k => ∀ o, keeps_id (k o)
  | Assign f k => (∀ o, processId (f o) = processId o) ∧ keeps_id k
  | JobsSet k => keeps_id k
  | NewDate k => ∀ t, keeps_id (k t)
  | Await _ k => ∀ b, keeps_id (k b)
  | Detach q k => keeps_id q ∧ keeps_id k
  end.

Definition task_keeps_id (task : Task) : Prop :=
  ∀ b, keeps_id (task_resume task b).

(** Addresses in use point into the heap, and no pending task will
    change the identifier of its job. *)
Record well_formed (σ : Server) : Prop := mk_well_formed {
  tasks_in_heap : Forall (λ t, task_this t < length (heap σ)) (tasks σ);
  issued_in_heap : Forall (λ le : loc * event, le.1 < length (heap σ)) (issued (shared σ));
  tasks_keep_id : Forall task_keeps_id (tasks σ)
}.

(** No job record carries the identifier [id] yet. *)
Definition fresh_id (id : string) (σ : Server) : Prop :=
  ∀ l o, heap σ !! l = Some o → processId o ≠ id.

(** A later submission draws the identifier [id] again. *)
Definition draws_again (id : string) (tn : turn) : bool :=
  match tn with
  | SubmitAudio _ uuid => String.eqb uuid id
  | _ => false
  end.

(** The registry binds [id] to the record at [l], which carries [id],
    and no other record does. *)
Definition owns (l : loc) (id : string) (σ : Server) : Prop :=
  processingJobs (shared σ) !! id = Some l ∧
  (∃ o, heap σ !! l = Some o ∧ processId o = id) ∧
  (∀ l' o', heap σ !! l' = Some o' → processId o' = id → l' = l).

(** The answer [b] to the operation of [task] is a child process that
    did not exit with zero, or that could not be launched. *)
Definition child_failed (task : Task) : task_answer task → bool :=
  match task_event task in ext B return B → bool with
  | spawn _ _ => λ r, negb (exit_zero r)
  | _ => λ _, false
  end.

(** The first completion delivered to the object at [l] is a failed child. *)
Fixpoint first_completion_fails (l : loc) (tns : list turn) : bool :=
  match tns with
  | [] => false
  | Complete i task b :: rest =>
      if bool_decide (task_this task = l) then child_failed task b
      else first_completion_fails l rest
  | _ :: rest => first_completion_fails l rest
  end.

(** The task [process()] leaves when it first suspends. *)
Definition conversion_task (dirname : string) (l : loc) (o : AudioProcessor) : list Task :=
  top_task l (exec l (process_in_background dirname) o (mkShared ∅ ∅ "" [])).1.1.1.

(** What a stage that succeeds leaves of the object. *)
Definition converted (wav : string) (o : AudioProcessor) : AudioProcessor :=
  set_wavFile wav
    (put_step "conversion" completed (with_outputPath wav)
       (put_step "conversion" processing no_data o)).

Definition transcribed (text : string) (o : AudioProcessor) : AudioProcessor :=
  set_transcription text
    (put_step "transcription" completed no_data
       (put_step "transcription" processing no_data o)).

Definition summarized (text : string) (o : AudioProcessor) : AudioProcessor :=
  set_summary text
    (put_step "summary" completed no_data
       (put_step "summary" processing no_data o)).

Definition attached (o : AudioProcessor) : AudioProcessor :=
  put_step "hubspot" completed no_data (put_step "hubspot" processing no_data o).

(** ** Scripted environments *)

(** What the tools, the file system and the clock do in an example. *)
Record Script := mkScript {
  ffmpeg_says : ChildResult;
  whisper_says : ChildResult;
  readFile_says : Settled string;
  transcript_write_says : Settled unit;
  ollama_says : ChildResult;
  ollama_stdin_says : option string;
  summary_write_says : Settled unit;
  unlink_says : Settled unit;
  clock_says : string
}.

Definition scripted (sc : Script) : Oracle :=
  mkOracle
    (λ B e,
       match e in ext B return B with
       | spawn command _ =>
           if String.eqb command "ffmpeg" then ffmpeg_says sc
           else whisper_says sc
       | spawn_writing _ _ _ => mkPipedResult (ollama_says sc) (ollama_stdin_says sc)
       | setTimeout _ => tt
       | fs_readFile _ => readFile_says sc
       | fs_writeFile path _ =>
           if String.prefix "transcripts/" path then transcript_write_says sc
           else summary_write_says sc
       | fs_unlink _ => unlink_says sc
       | hubspot_api _ => tt
       end)
    (λ _ _, clock_says sc).

(** Every tool succeeds; whisper-cli hears [raw], ollama prints [out]. *)
Definition all_succeed (raw out : string) : Script :=
  {| ffmpeg_says := close (Some 0%Z) "" "";
     whisper_says := close (Some 0%Z) "" "";
     readFile_says := fulfilled raw;
     transcript_write_says := fulfilled tt;
     ollama_says := close (Some 0%Z) out "";
     ollama_stdin_says := None;
     summary_write_says := fulfilled tt;
     unlink_says := fulfilled tt;
     clock_says := "2024-05-06T07:08:09.123Z" |}.

Definition acme : Metadata :=
  {| clientName := Some "Acme & Co";
     caseNumber := Some "123";
     meetingNotes := None;
     originalFileName := Some "meeting.m4a";
     uploadedAt := Some "2024-05-06T07:00:00.000Z";
     metadata_attachToHubspot := false |}.


Definition nothing_shared : Shared := mkShared ∅ ∅ "" [].

(** Blanks outside ASCII, in UTF-8: U+00A0, U+FEFF and U+2028. *)
Definition bytes (ns : list nat) : string :=
  String.string_of_list_ascii (ascii_of_nat <$> ns).

Definition no_break_space : string := bytes [194; 160].
Definition byte_order_mark : string := bytes [239; 187; 191].
Definition line_separator : string := bytes [226; 128; 168].
Definition line_feed : string := bytes [10].

(** ** The claims of the specification that the code does not meet,
    as the specification words them *)


(** ollama prints only a blank. *)
Definition blank_summary : Script :=
  all_succeed "HELLO" (" " +:+ no_break_space +:+ line_feed).


(** whisper-cli exits with status 1. *)
Definition whisper_exits_1 : Script :=
  {| ffmpeg_says := close (Some 0%Z) "" "";
     whisper_says := close (Some 1%Z) "" "failed to load model";
     readFile_says := rejected "ENOENT";
     transcript_write_says := fulfilled tt;
     ollama_says := close (Some 0%Z) "SUMMARY TEXT" "";
     ollama_stdin_says := None;
     summary_write_says := fulfilled tt;
     unlink_says := fulfilled tt;
     clock_says := "2024-05-06T07:08:09.123Z" |}.

(** ollama is not running: the child exits with status 1 before it has
    read the prompt, and the write to its standard input fails. *)
Definition ollama_gone : Script :=
  {| ffmpeg_says := close (Some 0%Z) "" "";
     whisper_says := close (Some 0%Z) "" "";
     readFile_says := fulfilled "HELLO";
     transcript_write_says := fulfilled tt;
     ollama_says := close (Some 1%Z) "" "Error: could not connect to ollama app";
     ollama_stdin_says := Some "write EPIPE";
     summary_write_says := fulfilled tt;
     unlink_says := fulfilled tt;
     clock_says := "2024-05-06T07:08:09.123Z" |}.

(** The summary file cannot be written. *)
Definition summaries_read_only : Script :=
  {| ffmpeg_says := close (Some 0%Z) "" "";
     whisper_says := close (Some 0%Z) "" "";
     readFile_says := fulfilled "HELLO";
     transcript_write_says := fulfilled tt;
     ollama_says := close (Some 0%Z) "SUMMARY TEXT" "";
     ollama_stdin_says := None;
     summary_write_says := rejected "EACCES";
     unlink_says := fulfilled tt;
     clock_says := "2024-05-06T07:08:09.123Z" |}.

(** A server that holds one completed job, registered as ["job-1"]. *)
Definition completed_job : AudioProcessor :=
  set_status completed
    (summarized "SUMMARY TEXT"
       (transcribed "HELLO"
          (converted "temp/job-1.wav"
             (set_status processing
                (new_AudioProcessor "job-1" "uploads/u_meeting.m4a" acme))))).

Definition server_with_completed_job : Server :=
  mkServer [completed_job] (mkShared {["job-1" := 0]} ∅ "" []) [] [] None.

(** A server that holds one job still in its conversion step. *)
Definition converting_job : AudioProcessor :=
  put_step "conversion" processing no_data
    (set_status processing
       (new_AudioProcessor "job-1" "uploads/u_meeting.m4a" acme)).

Definition server_with_converting_job : Server :=
  mkServer [converting_job] (mkShared {["job-1" := 0]} ∅ "" []) [] [] None.

(** The paths a job writes: the converted audio, given to ffmpeg as its
    output, and the files it asks [fs.writeFile] for. *)
Definition artifact_paths (dirname : string) (env : Oracle) (l : loc)
    (id file : string) (md : Metadata) : list string :=
  wavOutputPath id ::
  written_paths l
    (run env l (process dirname) (new_AudioProcessor id file md) nothing_shared).2.

(** C9 as stated: two jobs with distinct identifiers never write the
    same path. *)
Definition distinct_artifacts_as_stated (dirname : string)
    (env1 env2 : Oracle) (id1 file1 : string) (md1 : Metadata)
    (id2 file2 : string) (md2 : Metadata) : Prop :=
  id1 ≠ id2 →
  ∀ p, p ∈ artifact_paths dirname env1 0 id1 file1 md1 →
       p ∉ artifact_paths dirname env2 1 id2 file2 md2.

(** A form that asks for the attach step. *)
Definition form_asking_for_attach : Request :=
  mkRequest (Some (mkUploadedFile "uploads/u_meeting.m4a" "meeting.m4a"))
    (<["attachToHubspot" := "true"]>
       (<["clientName" := "Acme & Co"]> (<["caseNumber" := "123"]> ∅))).

(** What the [catch] block of [process] leaves. *)
Definition caught (l : loc) (r : string * AudioProcessor * Shared)
  : Outcome ProcessResult * AudioProcessor * Shared :=
  let '(m, o, s) := r in
  (thrown m, set_error m (set_status error o), jobs_set (processId o) l s).


(** The state of a job whose conversion failed: halted in [error], the
    later steps untouched, no task left, the later tools never started. *)
Definition conversion_halted (l : loc) (uuid : string) (σ' : Server) : Prop :=
  ∃ o', heap σ' !! l = Some o' ∧
    processId o' = uuid ∧
    status o' = error ∧ is_Some (this_error o') ∧
    step_of o' "conversion" = Some error ∧
    step_of o' "transcription" = Some pending ∧
    step_of o' "summary" = Some pending ∧
    step_of o' "hubspot" = Some pending ∧
    tasks_of l σ' = [] ∧
    issued_by l (is_spawn_of "whisper-cli") (shared σ') = 0 ∧
    issued_by l (is_spawn_of "ollama") (shared σ') = 0.

(** The server after one submission, and its oldest pending task. *)
Definition submitted (dirname : string) : Server :=
  post_process_audio dirname form_asking_for_attach "job-1"
    (set_clock "2024-05-06T07:00:00.000Z" initial_server).

Definition oldest_task (σ : Server) : Task :=
  default (mkTask 0 unit (setTimeout 0) (λ _, Ret None)) (tasks σ !! 0).

(** The server after a job was submitted, its conversion and its
    transcription have completed, and ollama has exited with status 1
    before it read the prompt. *)
Definition server_after_ollama_gone : Server :=
  let σ0 := submitted "/srv/app" in
  let σ1 := take_turn "/srv/app" "2024-05-06T07:00:05.000Z"
              (Complete 0 (oldest_task σ0) (close (Some 0%Z) "" "")) σ0 in
  let σ2 := take_turn "/srv/app" "2024-05-06T07:01:05.000Z"
              (Complete 0 (oldest_task σ1) (close (Some 0%Z) "" "")) σ1 in
  let σ3 := take_turn "/srv/app" "2024-05-06T07:01:06.000Z"
              (Complete 0 (oldest_task σ2) tt) σ2 in
  let σ4 := take_turn "/srv/app" "2024-05-06T07:01:06.010Z"
              (Complete 0 (oldest_task σ3) (fulfilled "HELLO")) σ3 in
  let σ5 := take_turn "/srv/app" "2024-05-06T07:01:06.020Z"
              (Complete 0 (oldest_task σ4) (fulfilled tt)) σ4 in
  let σ6 := take_turn "/srv/app" "2024-05-06T07:01:06.030Z"
              (Complete 0 (oldest_task σ5) (fulfilled tt)) σ5 in
  take_turn "/srv/app" "2024-05-06T07:01:06.500Z"
    (Complete 0 (oldest_task σ6)
       (mkPipedResult (close (Some 1%Z) "" "Error: could not connect to ollama app")
                      (Some "write EPIPE"))) σ6.

(** ** Identifiers and uploads *)

(** One hexadecimal digit of [toString(16)]. *)
Definition hex_digit (d : Z) : ascii :=
  match d with
  | 0 => "0" | 1 => "1" | 2 => "2" | 3 => "3" | 4 => "4" | 5 => "5"
  | 6 => "6" | 7 => "7" | 8 => "8" | 9 => "9" | 10 => "a" | 11 => "b"
  | 12 => "c" | 13 => "d" | 14 => "e" | _ => "f"
  end%Z%char.

Fixpoint hex_digits (fuel : nat) (n : Z) (acc : string) : string :=
  match fuel with
  | O => acc
  | S fuel' =>
      let acc' := String (hex_digit (n mod 16)) acc in
      if (n <? 16)%Z then acc' else hex_digits fuel' (n / 16) acc'
  end.

(** [v.toString(16)] for an integer [v]. *)
Definition Number_toString16 (v : Z) : string :=
  if (v <? 0)%Z then "-" +:+ hex_digits (S (Z.to_nat (- v))) (- v) ""
  else hex_digits (S (Z.to_nat v)) v "".

(** [x | 0] for a number [x]: the fraction is dropped and the integer
    wraps into 32 signed bits. *)
Definition to_int32 (x : Q) : Z :=
  let n := if Qle_bool 0 x then Qfloor x else Qceiling x in
  ((n + 2 ^ 31) mod 2 ^ 32 - 2 ^ 31)%Z.

(** The callback that [uuidv4] gives to [replace]: [c] is the matched
    character and [u] is what [Math.random()] returns. *)
Definition uuid_replacer (c : ascii) (u : Q) : string :=
  let r := to_int32 (u * 16) in
  let v := if bool_decide (c = "x"%char) then r else Z.lor (Z.land r 3) 8 in
  Number_toString16 v.

(** [template.replace(/[xy]/g, f)]: the callback runs once for each
    match, from left to right; its [i]-th call draws [random i]. *)
Fixpoint replace_xy (template : string) (random : nat → Q) (i : nat) : string :=
  match template with
  | EmptyString => EmptyString
  | String c rest =>
      if bool_decide (c = "x"%char) || bool_decide (c = "y"%char)
      then uuid_replacer c (random i) +:+ replace_xy rest random (S i)
      else String c (replace_xy rest random i)
  end.

Definition uuid_template : string := "xxxxxxxx-xxxx-4xxx-yxxx-xxxxxxxxxxxx".

Definition uuidv4 (random : nat → Q) : string :=
  replace_xy uuid_template random 0.

(** What [Math.random] promises: a number from 0 up to, not including, 1. *)
Definition unit_interval (random : nat → Q) : Prop :=
  ∀ i, (0 <= random i)%Q ∧ (random i < 1)%Q.

Definition is_hex_digit (c : ascii) : bool :=
  let n := nat_of_ascii c in
  (Nat.leb 48 n && Nat.leb n 57) || (Nat.leb 97 n && Nat.leb n 102).

(** The digits [8], [9], [a] and [b]. *)
Definition is_variant_digit (c : ascii) : bool :=
  let n := nat_of_ascii c in
  (Nat.leb 56 n && Nat.leb n 57) || (Nat.leb 97 n && Nat.leb n 98).

(** [s] has the shape of [template]: a hexadecimal digit for each [x],
    one of [8 9 a b] for each [y], and every other character as it is. *)
Fixpoint fits (template s : string) : bool :=
  match template, s with
  | EmptyString, EmptyString => true
  | String t template', String c s' =>
      (if bool_decide (t = "x"%char) then is_hex_digit c
       else if bool_decide (t = "y"%char) then is_variant_digit c
       else bool_decide (c = t)) && fits template' s'
  | _, _ => false
  end.

(** The four bits that the [i]-th draw leaves in the identifier. *)
Definition uuid_nibble (i : nat) (u : Q) : Z :=
  let r := to_int32 (u * 16) in
  if bool_decide (i = 15%nat) then Z.lor (Z.land r 3) 8 else r.

(** The [diskStorage] of the uploads: [destination] and [filename]. *)
Definition storage_destination : string := "uploads/".

Definition storage_filename (random : nat → Q) (originalname : string) : string :=
  uuidv4 random +:+ "_" +:+ originalname.

(** The identifier spelled from the digits [n 0], [n 1], ...: one digit
    for each [x] and [y] of the template. *)
Fixpoint digits_xy (template : string) (n : nat → Z) (i : nat) : string :=
  match template with
  | EmptyString => EmptyString
  | String c rest =>
      if bool_decide (c = "x"%char) || bool_decide (c = "y"%char)
      then String (hex_digit (n i)) (digits_xy rest n (S i))
      else String c (digits_xy rest n i)
  end.

(** How many draws a template takes. *)
Fixpoint count_xy (template : string) : nat :=
  match template with
  | EmptyString => 0
  | String c rest =>
      if bool_decide (c = "x"%char) || bool_decide (c = "y"%char)
      then S (count_xy rest) else count_xy rest
  end.

(** From the [i]-th draw on, the [y] of the template is draw 15. *)
Fixpoint y_is_draw_15 (template : string) (i : nat) : bool :=
  match template with
  | EmptyString => true
  | String c rest =>
      if bool_decide (c = "x"%char) then negb (Nat.eqb i 15) && y_is_draw_15 rest (S i)
      else if bool_decide (c = "y"%char) then Nat.eqb i 15 && y_is_draw_15 rest (S i)
      else y_is_draw_15 rest i
  end.

(** whisper-cli exits with zero but leaves no text file. *)
Definition transcript_missing : Script :=
  {| ffmpeg_says := close (Some 0%Z) "" "";
     whisper_says := close (Some 0%Z) "" "";
     readFile_says := rejected "ENOENT: no such file or directory";
     transcript_write_says := fulfilled tt;
     ollama_says := close (Some 0%Z) "SUMMARY TEXT" "";
     ollama_stdin_says := None;
     summary_write_says := fulfilled tt;
     unlink_says := fulfilled tt;
     clock_says := "2024-05-06T07:08:09.123Z" |}.

(** The transcript file cannot be written. *)
Definition transcripts_read_only : Script :=
  {| ffmpeg_says := close (Some 0%Z) "" "";
     whisper_says := close (Some 0%Z) "" "";
     readFile_says := fulfilled "HELLO";
     transcript_write_says := rejected "EACCES";
     ollama_says := close (Some 0%Z) "SUMMARY TEXT" "";
     ollama_stdin_says := None;
     summary_write_says := fulfilled tt;
     unlink_says := fulfilled tt;
     clock_says := "2024-05-06T07:08:09.123Z" |}.

(** A form without a file. *)
Definition form_without_file : Request :=
  mkRequest None (<["clientName" := "Acme & Co"]> ∅).

(** * Properties *)

(** ** The run of a program, compositionally *)

Section RunLemmas.

Context (env : Oracle) (l : loc).

Lemma run_bind {A B : Type} (p : Prog A) (f : A → Prog B) o s :
  run env l (p ≫= f) o s =
  match run env l p o s with
  | (returned a, o', s') => run env l (f a) o' s'
  | (thrown m, o', s') => (thrown m, o', s')
  | (crashed m, o', s') => (crashed m, o', s')
  end.
Proof.
  unfold mbind, Prog_bind. revert B f o s.
  induction p as [| | | | | | | |A q IHq k IHk]; intros; simpl; auto.
  destruct (run env l q o s) as [[[] ?] ?]; [apply IHk..|done].
Qed.

Lemma run_try_catch {A : Type} (p : Prog A) h o s :
  run env l (try_catch p h) o s =
  match run env l p o s with
  | (returned a, o', s') => (returned a, o', s')
  | (thrown m, o', s') => run env l (h m) o' s'
  | (crashed m, o', s') => (crashed m, o', s')
  end.
Proof.
  revert h o s.
  induction p as [| | | | | | | |A q IHq k IHk]; intros; simpl; auto.
  destruct (run env l q o s) as [[[] ?] ?]; [apply IHk..|done].
Qed.

Lemma run_updateStep name st data o s :
  run env l (updateStep name st data) o s =
  (returned tt, put_step name st data o, jobs_set (processId o) l s).
Proof. reflexivity. Qed.

Lemma run_Ret {A : Type} (a : A) o s : run env l (Ret a) o s = (returned a, o, s).
Proof. reflexivity. Qed.

Lemma run_assign f o s : run env l (assign f) o s = (returned tt, f o, s).
Proof. reflexivity. Qed.

Lemma run_processingJobs_set o s :
  run env l processingJobs_set o s = (returned tt, o, jobs_set (processId o) l s).
Proof. reflexivity. Qed.

Lemma run_this o s : run env l this o s = (returned o, o, s).
Proof. reflexivity. Qed.

Lemma run_detach (p : Prog unit) o s :
  run env l (detach p) o s =
  (match (run env l p o s).1.1 with
   | crashed m => crashed m
   | _ => returned tt
   end, (run env l p o s).1.2, (run env l p o s).2).
Proof. unfold detach. simpl. by destruct (run env l p o s) as [[[] ?] ?]. Qed.

End RunLemmas.

Lemma truthy_trim (s : string) : JS.truthy (Some s) = true ↔ s ≠ "".
Proof. destruct s; simpl; split; try done. Qed.

(** ** The four stages *)

Section Stages.

Context (dirname : string) (env : Oracle) (l : loc).
Implicit Types (o : AudioProcessor) (s : Shared).

Lemma run_convertAudioToWav o s :
  let wav := wavOutputPath (processId o) in
  let e := ffmpeg_spawn (audioFile o) wav in
  let o1 := put_step "conversion" processing no_data o in
  let s1 := jobs_set (processId o) l (awaited env l e (jobs_set (processId o) l s)) in
  run env l convertAudioToWav o s =
  match answer env _ e with
  | close code _ _ =>
      if bool_decide (code = Some 0%Z) then
        (returned wav,
         set_wavFile wav (put_step "conversion" completed (with_outputPath wav) o1), s1)
      else
        (thrown ("FFmpeg failed with code " +:+ code_to_string code),
         put_step "conversion" error (with_error "FFmpeg conversion failed") o1, s1)
  | spawn_error m =>
      (thrown m, put_step "conversion" error (with_error m) o1, s1)
  end.
Proof.
  intros. unfold convertAudioToWav.
  rewrite run_bind, run_updateStep. simpl.
  fold wav e. destruct (answer env ChildResult e) as [code out err|m]; [|done].
  by case_bool_decide.
Qed.

Lemma run_transcribeAudio wavPath o s :
  let e := whisper_spawn dirname wavPath in
  let txt := wavPath +:+ ".txt" in
  let id := processId o in
  let o1 := put_step "transcription" processing no_data o in
  let s1 := awaited env l e (jobs_set id l s) in
  let s2 := awaited env l (fs_readFile txt) (awaited env l (setTimeout 1000) s1) in
  run env l (transcribeAudio dirname wavPath) o s =
  match answer env _ e with
  | close code _ _ =>
      if bool_decide (code = Some 0%Z) then
        match answer env _ (fs_readFile txt) with
        | fulfilled raw =>
            let text := JS.trim raw in
            let o2 := set_transcription text
                        (put_step "transcription" completed no_data o1) in
            let w := fs_writeFile
                       (transcriptSavePath (clock env _ (fs_readFile txt)) (metadata o))
                       text in
            let s3 := awaited env l w (jobs_set id l s2) in
            match answer env _ w with
            | fulfilled _ => (returned text, o2, awaited env l (fs_unlink txt) s3)
            | rejected m =>
                (thrown m,
                 put_step "transcription" error
                   (with_error "Failed to read transcript file") o2,
                 jobs_set id l s3)
            end
        | rejected m =>
            (thrown m,
             put_step "transcription" error
               (with_error "Failed to read transcript file") o1,
             jobs_set id l s2)
        end
      else
        (thrown ("Whisper-cli failed with code " +:+ code_to_string code),
         put_step "transcription" error
           (with_error ("Whisper-cli failed with code " +:+ code_to_string code)) o1,
         jobs_set id l s1)
  | spawn_error m =>
      (thrown m, put_step "transcription" error (with_error m) o1, jobs_set id l s1)
  end.
Proof.
  intros. unfold transcribeAudio.
  rewrite run_bind, run_updateStep. simpl.
  fold e id. destruct (answer env ChildResult e) as [code out err|m]; [|done].
  case_bool_decide; [|done].
  simpl. fold txt.
  destruct (answer env (Settled string) (fs_readFile txt)) as [raw|m]; [|done].
  simpl.
  by destruct (answer env (Settled ()) (fs_writeFile _ _)) as [[]|m].
Qed.

Lemma run_generateSummary text o s :
  let e := ollama_spawn (legalPrompt text) in
  let id := processId o in
  let o1 := put_step "summary" processing no_data o in
  let s1 := awaited env l e (jobs_set id l s) in
  run env l (generateSummary text) o s =
  match stdin_error (answer env _ e) with
  | Some m => (crashed m, o1, s1)
  | None =>
      match child_result (answer env _ e) with
      | close code stdout _ =>
          if bool_decide (code = Some 0%Z) && JS.truthy (Some (JS.trim stdout)) then
            let w := fs_writeFile (summarySavePath (clock env _ e) (metadata o))
                                  (JS.trim stdout) in
            (returned (JS.trim stdout),
             set_summary (JS.trim stdout) (put_step "summary" completed no_data o1),
             awaited env l w (jobs_set id l s1))
          else
            (thrown ("Ollama failed with code " +:+ code_to_string code),
             put_step "summary" error (with_error "Summary generation failed") o1,
             jobs_set id l s1)
      | spawn_error m =>
          (thrown m, put_step "summary" error (with_error m) o1, jobs_set id l s1)
      end
  end.
Proof.
  intros. unfold generateSummary.
  rewrite run_bind, run_updateStep. simpl.
  fold e id. destruct (answer env PipedResult e) as [[code out err|m] [m'|]]; try done.
  simpl. destruct (bool_decide (code = Some 0%Z) && _); [|done].
  simpl.
  by destruct (answer env (Settled ()) (fs_writeFile _ _)) as [[]|m].
Qed.

Lemma run_attachToHubspot o s :
  let id := processId o in
  let o1 := put_step "hubspot" processing no_data o in
  let s1 := awaited env l (hubspot_api 1000) (jobs_set id l s) in
  run env l attachToHubspot o s =
  (returned (true, "Attached to HubSpot successfully"),
   put_step "hubspot" completed no_data o1, jobs_set id l s1).
Proof. reflexivity. Qed.

Lemma run_cleanup o s :
  run env l cleanup o s =
  (returned tt, o,
   match wavFile (results o) with
   | Some wav => if JS.truthy (Some wav) then awaited env l (fs_unlink wav) s else s
   | None => s
   end).
Proof.
  unfold cleanup. simpl.
  destruct (wavFile (results o)) as [wav|]; [|done].
  by destruct wav.
Qed.

End Stages.

(** ** The pipeline as a composition of its stages *)

Section Pipeline.

Context (dirname : string) (env : Oracle) (l : loc).
Implicit Types (o : AudioProcessor) (s : Shared).

Local Ltac pipeline_tail :=
  repeat (first [ rewrite run_bind | rewrite run_Ret | rewrite run_assign
                | rewrite run_processingJobs_set | rewrite run_detach
                | rewrite run_this ];
          cbv beta iota).

Lemma run_process o s :
  run env l (process dirname) o s =
  match run env l convertAudioToWav
          (set_status processing o) (jobs_set (processId o) l s) with
  | (thrown m, o1, s1) => caught l (m, o1, s1)
  | (crashed m, o1, s1) => (crashed m, o1, s1)
  | (returned wavPath, o1, s1) =>
      match run env l (transcribeAudio dirname wavPath) o1 s1 with
      | (thrown m, o2, s2) => caught l (m, o2, s2)
      | (crashed m, o2, s2) => (crashed m, o2, s2)
      | (returned text, o2, s2) =>
          match run env l (generateSummary text) o2 s2 with
          | (thrown m, o3, s3) => caught l (m, o3, s3)
          | (crashed m, o3, s3) => (crashed m, o3, s3)
          | (returned sum, o3, s3) =>
              match (if metadata_attachToHubspot (metadata o3)
                     then run env l attachToHubspot o3 s3
                     else (returned (true, ""), o3, s3)) with
              | (thrown m, o4, s4) => caught l (m, o4, s4)
              | (crashed m, o4, s4) => (crashed m, o4, s4)
              | (returned _, o4, s4) =>
                  let o5 := set_status completed o4 in
                  (returned (mkProcessResult text sum (metadata o5)), o5,
                   (run env l cleanup o5 (jobs_set (processId o5) l s4)).2)
              end
          end
      end
  end.
Proof.
  unfold process. rewrite run_try_catch.
  rewrite run_bind, run_assign. cbv beta iota.
  rewrite run_bind, run_processingJobs_set. cbv beta iota.
  rewrite run_bind.
  destruct (run env l convertAudioToWav _ _) as [[[wavPath|m|m] o1] s1]; [|done..].
  rewrite run_bind.
  destruct (run env l (transcribeAudio dirname wavPath) _ _)
    as [[[text|m|m] o2] s2]; [|done..].
  rewrite run_bind.
  destruct (run env l (generateSummary text) _ _) as [[[sum|m|m] o3] s3]; [|done..].
  rewrite run_bind, run_this. cbv beta iota. rewrite run_bind.
  destruct (metadata_attachToHubspot (metadata o3)).
  - rewrite run_bind.
    destruct (run env l attachToHubspot o3 s3) as [[[r|m|m] o4] s4]; [|done..].
    pipeline_tail. by rewrite run_cleanup.
  - pipeline_tail. by rewrite run_cleanup.
Qed.

End Pipeline.

(** ** Issued operations *)

Lemma issued_by_app l P s evs :
  issued_by l P (mkShared (processingJobs s) (disk s) (now s) (issued s ++ evs)) =
  (issued_by l P s +
   length (List.filter (λ le : loc * event, bool_decide (le.1 = l) && P le.2) evs))%nat.
Proof. unfold issued_by. simpl. by rewrite List.filter_app, length_app. Qed.

Lemma issued_awaited {B : Type} env l (e : ext B) s :
  issued (awaited env l e s) = issued s ++ [(l, event_of e)].
Proof. reflexivity. Qed.

Lemma issued_jobs_set id l s : issued (jobs_set id l s) = issued s.
Proof. reflexivity. Qed.

(** ** C1: a failed conversion halts the pipeline *)

Section ConversionFails.

Context (dirname : string) (env : Oracle) (l : loc).
Context (id file : string) (md : Metadata) (s : Shared).

Let wav := wavOutputPath id.
Let o := new_AudioProcessor id file md.

Lemma conversion_failure_run :
  exit_zero (answer env _ (ffmpeg_spawn file wav)) = false →
  ∃ m data,
    run env l (process dirname) o s =
    (thrown m,
     set_error m (set_status error
       (put_step "conversion" error data
          (put_step "conversion" processing no_data (set_status processing o)))),
     jobs_set id l (jobs_set id l
       (awaited env l (ffmpeg_spawn file wav) (jobs_set id l (jobs_set id l s))))).
Proof.
  intros Hfail. rewrite run_process, run_convertAudioToWav. simpl.
  fold wav. destruct (answer env ChildResult _) as [code out err|m].
  - simpl in Hfail. rewrite Hfail. by eexists _, _.
  - by eexists _, _.
Qed.

End ConversionFails.

(** ** What one turn of the event loop can change *)

(** The registry only gains bindings to [l]; nothing is removed. *)
Definition registry_grows (l : loc) (s s' : Shared) : Prop :=
  ∀ id, processingJobs s' !! id = processingJobs s !! id ∨
        processingJobs s' !! id = Some l.

(** The operations issued since [s] all belong to [l]. *)
Definition issued_grows (l : loc) (s s' : Shared) : Prop :=
  ∃ evs, issued s' = issued s ++ evs ∧ Forall (λ le : loc * event, le.1 = l) evs.

Lemma registry_grows_refl l s : registry_grows l s s.
Proof. intros id. by left. Qed.

Lemma registry_grows_trans l s1 s2 s3 :
  registry_grows l s1 s2 → registry_grows l s2 s3 → registry_grows l s1 s3.
Proof.
  intros H12 H23 id. destruct (H23 id) as [->| ->]; [apply H12 | by right].
Qed.

Lemma registry_grows_set l id s : registry_grows l s (jobs_set id l s).
Proof.
  intros id'. simpl. destruct (decide (id = id')) as [->|Hne].
  - right. apply lookup_insert_eq.
  - left. by apply lookup_insert_ne.
Qed.

Lemma issued_grows_refl l s : issued_grows l s s.
Proof. exists []. by rewrite app_nil_r. Qed.

Lemma issued_grows_trans l s1 s2 s3 :
  issued_grows l s1 s2 → issued_grows l s2 s3 → issued_grows l s1 s3.
Proof.
  intros (evs1 & E1 & F1) (evs2 & E2 & F2). exists (evs1 ++ evs2). split.
  - by rewrite E2, E1, app_assoc.
  - by apply Forall_app.
Qed.

Lemma exec_frame {A : Type} l (p : Prog A) o s r o' s' ts :
  exec l p o s = (r, o', s', ts) →
  registry_grows l s s' ∧ issued_grows l s s' ∧
  disk s' = disk s ∧ now s' = now s ∧
  Forall (λ t, task_this t = l) ts.
Proof.
  revert o s r o' s' ts.
  induction p as [A a|A m|A m|A k IH|A f k IH|A k IH|A k IH|A B e k IH|A q IHq k IHk];
    intros o s r o' s' ts Hexec; simpl in Hexec.
  - inversion Hexec; subst.
    eauto 10 using registry_grows_refl, issued_grows_refl.
  - inversion Hexec; subst.
    eauto 10 using registry_grows_refl, issued_grows_refl.
  - inversion Hexec; subst.
    eauto 10 using registry_grows_refl, issued_grows_refl.
  - by eapply IH.
  - by eapply IH.
  - apply IH in Hexec as (Hr & Hi & Hd & Hn & Ht). split_and!; try done.
    eapply registry_grows_trans; [apply registry_grows_set | done].
  - by eapply IH.
  - inversion Hexec; subst. split_and!; try done.
    + intros id. by left.
    + eexists [_]. split; [reflexivity|]. by repeat constructor.
  - destruct (exec l q o s) as [[[rq o1] s1] ts1] eqn:Hq.
    apply IHq in Hq as (Hr1 & Hi1 & Hd1 & Hn1 & Ht1).
    assert (∀ rk o2 s2 ts2, exec l k o1 s1 = (rk, o2, s2, ts2) →
            (rk, o2, s2, ts1 ++ child_task l rq ++ ts2) = (r, o', s', ts) →
            registry_grows l s s' ∧ issued_grows l s s' ∧
            disk s' = disk s ∧ now s' = now s ∧
            Forall (λ t, task_this t = l) ts) as Hgo.
    { intros rk o2 s2 ts2 Hk Heq. inversion Heq; subst.
      apply IHk in Hk as (Hr2 & Hi2 & Hd2 & Hn2 & Ht2).
      split_and!; try congruence.
      - by eapply registry_grows_trans.
      - by eapply issued_grows_trans.
      - rewrite !Forall_app. split_and!; try done.
        destruct rq; simpl; by repeat constructor. }
    destruct (exec l k o1 s1) as [[[rk o2] s2] ts2] eqn:Hk.
    destruct rq as [[a|m|m]|B e kq]; try (by eapply Hgo).
    by inversion Hexec; subst.
Qed.

(** A chain of the object at [l] starts: only the object at [l], the
    registry bindings to [l] and the tasks of [l] change. *)
Lemma start_frame l p σ :
  length (heap (start l p σ)) = length (heap σ) ∧
  (∀ l', l' ≠ l → heap (start l p σ) !! l' = heap σ !! l') ∧
  (heap σ !! l = None → start l p σ = σ) ∧
  registry_grows l (shared σ) (shared (start l p σ)) ∧
  issued_grows l (shared σ) (shared (start l p σ)) ∧
  disk (shared (start l p σ)) = disk (shared σ) ∧
  (∃ ts, tasks (start l p σ) = tasks σ ++ ts ∧ Forall (λ t, task_this t = l) ts).
Proof.
  unfold start. destruct (heap σ !! l) as [o|] eqn:Hl.
  - destruct (exec l p o (shared σ)) as [[[r o'] s'] ts] eqn:Hexec.
    apply exec_frame in Hexec as (Hr & Hi & Hd & Hn & Ht). simpl.
    split_and!; try done.
    + by rewrite length_insert.
    + intros l' Hne. by rewrite list_lookup_insert_ne.
    + eexists. split; [reflexivity|]. apply Forall_app. split; [done|].
      destruct r; simpl; by repeat constructor.
  - split_and!; try done.
    + apply registry_grows_refl.
    + apply issued_grows_refl.
    + exists []. by rewrite app_nil_r.
Qed.

Lemma issued_by_grows_other l l' P s s' :
  l' ≠ l → issued_grows l' s s' → issued_by l P s' = issued_by l P s.
Proof.
  intros Hne (evs & E & F). unfold issued_by. rewrite E, List.filter_app, length_app.
  replace (List.filter _ evs) with (@nil (loc * event)); [simpl; lia|].
  symmetry. clear E. induction F as [|le evs Hle F IH]; [done|]. simpl.
  by rewrite bool_decide_false by congruence.
Qed.

Lemma processingJobs_get_Some σ id :
  is_Some (processingJobs_get σ id) ↔
  ∃ l, processingJobs (shared σ) !! id = Some l ∧ l < length (heap σ).
Proof.
  unfold processingJobs_get. split.
  - intros [o Ho]. apply bind_Some in Ho as (l & Hl & Ho).
    exists l. split; [done|]. by eapply lookup_lt_Some.
  - intros (l & Hl & Hlt). rewrite Hl. simpl. by apply lookup_lt_is_Some.
Qed.

(** ** C8: the registry never loses a job *)

Section Registry.

Context (dirname : string).

Lemma start_keeps_jobs l p σ id :
  is_Some (processingJobs_get σ id) →
  is_Some (processingJobs_get (start l p σ) id).
Proof.
  intros Hget. destruct (heap σ !! l) as [o|] eqn:Hl.
  - destruct (start_frame l p σ) as (Hlen & _ & _ & Hreg & _).
    apply processingJobs_get_Some in Hget as (l0 & Hl0 & Hlt).
    apply processingJobs_get_Some. rewrite Hlen.
    destruct (Hreg id) as [E|E]; rewrite E.
    + eauto.
    + exists l. split; [done|]. by eapply lookup_lt_Some.
  - destruct (start_frame l p σ) as (_ & _ & Hsame & _). by rewrite Hsame.
Qed.

Lemma respond_keeps_jobs r σ id :
  processingJobs_get (respond r σ) id = processingJobs_get σ id.
Proof. reflexivity. Qed.

Lemma set_clock_keeps_jobs t σ id :
  processingJobs_get (set_clock t σ) id = processingJobs_get σ id.
Proof. reflexivity. Qed.

Lemma step_keeps_jobs σ tn σ' id :
  step dirname σ tn σ' →
  is_Some (processingJobs_get σ id) → is_Some (processingJobs_get σ' id).
Proof.
  intros Hstep Hget.
  destruct Hstep as [σ t [req uuid|id'|id'|i task b] [Hup Hi]]; simpl.
  - unfold post_process_audio. destruct (req_file req) as [file|]; [|done].
    rewrite respond_keeps_jobs. apply start_keeps_jobs.
    apply processingJobs_get_Some in Hget as (l0 & Hl0 & Hlt).
    apply processingJobs_get_Some. simpl. rewrite length_app. simpl.
    destruct (decide (uuid = id)) as [->|Hne].
    + exists (length (heap σ)). rewrite lookup_insert_eq. split; [done|lia].
    + exists l0. rewrite lookup_insert_ne by done. split; [done|lia].
  - unfold get_status. by destruct (processingJobs_get _ id').
  - unfold post_hubspot_attach.
    destruct (processingJobs _ !! id') as [l|]; [|done].
    destruct (heap _ !! l) as [job|]; [|done].
    case_bool_decide; [done|]. by apply start_keeps_jobs.
  - unfold resume. by apply start_keeps_jobs.
Qed.

Lemma steps_keep_jobs σ tns σ' id :
  steps_to dirname σ tns σ' →
  is_Some (processingJobs_get σ id) → is_Some (processingJobs_get σ' id).
Proof. induction 1; eauto using step_keeps_jobs. Qed.

Lemma submitted_job_registered req uuid file σ :
  req_file req = Some file →
  is_Some (processingJobs_get (post_process_audio dirname req uuid σ) uuid).
Proof.
  intros Hfile. unfold post_process_audio. rewrite Hfile.
  rewrite respond_keeps_jobs. apply start_keeps_jobs.
  apply processingJobs_get_Some. exists (length (heap σ)). simpl.
  rewrite lookup_insert_eq, length_app. simpl. split; [done|lia].
Qed.

End Registry.

(** ** Jobs that do not interfere *)

Lemma filter_delete_other {A : Type} (P : A → Prop) `{∀ x, Decision (P x)}
    (xs : list A) i x :
  xs !! i = Some x → ¬ P x → filter P (delete i xs) = filter P xs.
Proof.
  revert i. induction xs as [|a xs IH]; intros [|i] Hi Hx; simplify_eq/=.
  - by rewrite filter_cons_False.
  - rewrite !filter_cons. by erewrite IH.
Qed.

Lemma filter_delete_only {A : Type} (P : A → Prop) `{∀ x, Decision (P x)}
    (xs : list A) i x y :
  xs !! i = Some x → P x → filter P xs = [y] →
  x = y ∧ filter P (delete i xs) = [].
Proof.
  revert i. induction xs as [|a xs IH]; intros [|i] Hi Hx Hy; simplify_eq/=.
  - rewrite filter_cons_True in Hy by done. by simplify_eq.
  - rewrite filter_cons in Hy. rewrite filter_cons. destruct (decide (P a)).
    + simplify_eq. assert (x ∈ filter P xs) as Hin.
      { apply list_elem_of_filter. split; [done|]. by eapply list_elem_of_lookup_2. }
      rewrite H1 in Hin. by apply elem_of_nil in Hin.
    + by eapply IH.
Qed.

Lemma filter_none {A : Type} (P : A → Prop) `{∀ x, Decision (P x)} (xs : list A) :
  Forall (λ x, ¬ P x) xs → filter P xs = [].
Proof.
  induction 1 as [|x xs Hx _ IH]; [done|]. by rewrite filter_cons_False.
Qed.

Section Frame.

Context (dirname : string) (l : loc).

Lemma start_other l' p σ :
  l' ≠ l →
  heap (start l' p σ) !! l = heap σ !! l ∧
  tasks_of l (start l' p σ) = tasks_of l σ ∧
  ∀ P, issued_by l P (shared (start l' p σ)) = issued_by l P (shared σ).
Proof.
  intros Hne.
  destruct (start_frame l' p σ) as (_ & Hheap & _ & _ & Hiss & _ & ts & Hts & Fts).
  split_and!.
  - by apply Hheap.
  - unfold tasks_of. rewrite Hts, filter_app.
    rewrite (filter_none _ ts), app_nil_r; [done|].
    eapply Forall_impl; [done|]. simpl. congruence.
  - intros P. by eapply issued_by_grows_other.
Qed.

(** A turn that is not a completion for [l] leaves the object at [l],
    its tasks and its issued operations alone, as long as the job at
    [l] is not completed (so that a post-hoc attach is refused). *)
Lemma step_other o σ tn σ' :
  heap σ !! l = Some o → status o ≠ completed →
  (∀ i task b, tn = Complete i task b → task_this task ≠ l) →
  step dirname σ tn σ' →
  heap σ' !! l = Some o ∧ tasks_of l σ' = tasks_of l σ ∧
  ∀ P, issued_by l P (shared σ') = issued_by l P (shared σ).
Proof.
  intros Hl Hst Hother Hstep.
  assert (l < length (heap σ)) as Hlt by by eapply lookup_lt_Some.
  destruct Hstep as [σ t [req uuid|id'|id'|i task b] [Hup Hen]]; simpl.
  - unfold post_process_audio. destruct (req_file req) as [file|]; [|done].
    match goal with |- context [start ?l' ?p ?σ0] =>
      destruct (start_other l' p σ0) as (Hh & Ht & Hi) end.
    { simpl. lia. }
    change (heap (respond ?r ?x)) with (heap x).
    change (tasks_of l (respond ?r ?x)) with (tasks_of l x).
    change (shared (respond ?r ?x)) with (shared x).
    rewrite Hh, Ht. simpl. rewrite lookup_app_l by done. done.
  - unfold get_status. by destruct (processingJobs_get _ id').
  - unfold post_hubspot_attach.
    destruct (processingJobs _ !! id') as [l'|] eqn:Hid; [|done].
    destruct (heap _ !! l') as [job|] eqn:Hjob; [|done].
    case_bool_decide as Hc; [done|].
    destruct (decide (l' = l)) as [->|Hne].
    + simpl in Hjob. rewrite Hl in Hjob. simplify_eq.
    + destruct (start_other l' (attach_and_reply) (set_clock t σ) Hne) as (Hh & Ht & Hi).
      rewrite Hh, Ht. done.
  - unfold resume.
    assert (task_this task ≠ l) as Hne by by eapply Hother.
    match goal with |- context [start ?l' ?p ?σ0] =>
      destruct (start_other l' p σ0 Hne) as (Hh & Ht & Hiss) end.
    rewrite Hh, Ht. split_and!; [done| |].
    + unfold tasks_of. simpl. by eapply filter_delete_other.
    + intros P. by rewrite Hiss.
Qed.

End Frame.

(** A job that is not completed and has no task left never changes. *)
Section Frozen.

Context (dirname : string) (l : loc) (o : AudioProcessor).
Hypothesis not_completed : status o ≠ completed.

Lemma frozen_step σ tn σ' :
  heap σ !! l = Some o → tasks_of l σ = [] →
  step dirname σ tn σ' →
  heap σ' !! l = Some o ∧ tasks_of l σ' = [] ∧
  ∀ P, issued_by l P (shared σ') = issued_by l P (shared σ).
Proof.
  intros Hl Hnone Hstep.
  destruct (step_other dirname l o σ tn σ') as (Hh & Ht & Hi); try done.
  - intros i task b ->. inversion Hstep as [? t ? [Hup Hi]]; subst. simpl in Hi.
    intros Hthis.
    assert (task ∈ tasks_of l σ) as Hin.
    { apply list_elem_of_filter. split; [done|]. by eapply list_elem_of_lookup_2. }
    rewrite Hnone in Hin. by apply elem_of_nil in Hin.
  - by rewrite Ht.
Qed.

Lemma frozen_steps σ tns σ' :
  heap σ !! l = Some o → tasks_of l σ = [] →
  steps_to dirname σ tns σ' →
  heap σ' !! l = Some o ∧ tasks_of l σ' = [] ∧
  ∀ P, issued_by l P (shared σ') = issued_by l P (shared σ).
Proof.
  intros Hl Hnone Hsteps. induction Hsteps as [σ|σ1 tn σ2 tns σ3 Hstep Hsteps IH].
  - done.
  - destruct (frozen_step _ _ _ Hl Hnone Hstep) as (Hl2 & Hnone2 & Hi2).
    destruct (IH Hl2 Hnone2) as (Hl3 & Hnone3 & Hi3).
    split_and!; try done. intros P. by rewrite Hi3, Hi2.
Qed.

End Frozen.

(** ** C1: a failed conversion halts the pipeline for good *)

Section ConversionFailure.

Context (dirname : string).
Context (σ : Server) (req : Request) (uuid : string) (file : UploadedFile).
Hypothesis wf : well_formed σ.
Hypothesis has_file : req_file req = Some file.

Let l := length (heap σ).
Let o0 := new_AudioProcessor uuid (file_path file)
            (request_metadata (req_body req) file (now (shared σ))).
Let oA := put_step "conversion" processing no_data (set_status processing o0).
Let convert := ffmpeg_spawn (file_path file) (wavOutputPath uuid).

Lemma fresh_issued_by P : issued_by l P (shared σ) = 0.
Proof.
  unfold issued_by. destruct wf as [_ Hiss _].
  induction Hiss as [|le evs Hle _ IH]; [done|]. cbn [List.filter].
  rewrite bool_decide_false; [exact IH|]. subst l. simpl in Hle. lia.
Qed.

Lemma fresh_tasks_of : tasks_of l σ = [].
Proof.
  unfold tasks_of. apply filter_none. destruct wf as [Hts _ _].
  eapply Forall_impl; [done|]. simpl. subst l. lia.
Qed.

Lemma submitted_job :
  let σ1 := post_process_audio dirname req uuid σ in
  heap σ1 !! l = Some oA ∧
  tasks_of l σ1 = conversion_task dirname l o0 ∧
  ∀ P, issued_by l P (shared σ1) =
       if P (event_of convert) then 1 else 0.
Proof.
  unfold post_process_audio. rewrite has_file. unfold start. simpl.
  rewrite list_lookup_middle by done. simpl. split_and!.
  - rewrite list_lookup_insert_eq; [done|]. rewrite length_app. simpl. lia.
  - unfold tasks_of. simpl. rewrite filter_app. fold (tasks_of l σ).
    rewrite fresh_tasks_of. cbn [app]. rewrite filter_cons_True by done.
    rewrite filter_nil. reflexivity.
  - intros P. pose proof (fresh_issued_by P) as Hfresh.
    unfold issued_by in *. simpl. rewrite List.filter_app, length_app, Hfresh.
    simpl. rewrite bool_decide_true by done. simpl.
    by destruct (P _).
Qed.

Lemma failing_completion σa t i task b :
  heap σa !! l = Some oA →
  tasks_of l σa = conversion_task dirname l o0 →
  tasks σa !! i = Some task → task_this task = l →
  child_failed task b = true →
  ∃ m data,
    heap (resume i task b (set_clock t σa)) !! l =
      Some (set_error m (set_status error (put_step "conversion" error data oA))) ∧
    tasks_of l (resume i task b (set_clock t σa)) = [] ∧
    ∀ P, issued_by l P (shared (resume i task b (set_clock t σa))) =
         issued_by l P (shared σa).
Proof.
  intros Hl Ht Hi Hthis Hfail.
  unfold conversion_task in Ht. simpl in Ht.
  destruct (filter_delete_only _ _ _ _ _ Hi Hthis Ht) as [-> Hnone].
  simpl in b, Hfail. apply negb_true_iff in Hfail.
  assert (l < length (heap σa)) as Hlt by by eapply lookup_lt_Some.
  unfold resume, start. simpl. rewrite Hl.
  destruct b as [code out err|m]; simpl in Hfail |- *.
  - rewrite Hfail. simpl. eexists _, _. split_and!.
    + rewrite list_lookup_insert_eq by done. reflexivity.
    + unfold tasks_of in *. simpl. by rewrite !app_nil_r.
    + done.
  - eexists _, _. split_and!.
    + rewrite list_lookup_insert_eq by done. reflexivity.
    + unfold tasks_of in *. simpl. by rewrite !app_nil_r.
    + done.
Qed.

Lemma waiting_steps σa tns σ' :
  heap σa !! l = Some oA →
  tasks_of l σa = conversion_task dirname l o0 →
  issued_by l (is_spawn_of "whisper-cli") (shared σa) = 0 →
  issued_by l (is_spawn_of "ollama") (shared σa) = 0 →
  steps_to dirname σa tns σ' →
  first_completion_fails l tns = true →
  conversion_halted l uuid σ'.
Proof.
  intros Hl Ht Hw Ho Hsteps.
  induction Hsteps as [σ0|σ1 tn σ2 tns σ3 Hstep Hsteps IH]; intros Hfirst; [done|].
  assert (status oA ≠ completed) as HoA by done.
  destruct tn as [req' uuid'|id'|id'|i task b]; simpl in Hfirst.
  1-3: eapply (step_other dirname l oA) in Hstep as (Hl2 & Ht2 & Hi2);
       [apply IH; try done; by rewrite ?Ht2, ?Hi2|done..].
  inversion Hstep as [? t ? [Hup Hi]]; subst. simpl in Hi.
  case_bool_decide as Hthis.
  - destruct (failing_completion σ1 t i task b Hl Ht Hi Hthis Hfirst)
      as (m & data & Hl2 & Ht2 & Hi2).
    match type of Hl2 with _ = Some ?o' =>
      assert (status o' ≠ completed) as Hne by (by simpl);
      destruct (frozen_steps dirname l o' Hne _ _ _ Hl2 Ht2 Hsteps)
        as (Hl3 & Ht3 & Hi3)
    end.
    eexists. split; [exact Hl3|]. rewrite !Hi3, !Hi2.
    split_and!; try done.
  - eapply (step_other dirname l oA) in Hstep as (Hl2 & Ht2 & Hi2); [|done|done|].
    + apply IH; try done; by rewrite ?Ht2, ?Hi2.
    + intros ??? [=]. by subst.
Qed.

End ConversionFailure.

(** Well-formedness is an invariant of the server. *)
Lemma initial_server_well_formed : well_formed initial_server.
Proof. by split. Qed.

Lemma keeps_id_bind {A B : Type} (p : Prog A) (f : A → Prog B) :
  keeps_id p → (∀ a, keeps_id (f a)) → keeps_id (p ≫= f).
Proof.
  unfold mbind, Prog_bind. intros Hp Hf. revert Hp.
  induction p as [A a|A m|A m|A k IH|A g k IH|A k IH|A k IH|A C e k IH|A q IHq k IHk];
    simpl; try done; intros Hp; eauto.
  - destruct Hp. split; eauto.
  - destruct Hp. split; eauto.
Qed.

Lemma keeps_id_try_catch {A : Type} (p : Prog A) h :
  keeps_id p → (∀ m, keeps_id (h m)) → keeps_id (try_catch p h).
Proof.
  intros Hp Hh. revert Hp.
  induction p as [A a|A m|A m|A k IH|A g k IH|A k IH|A k IH|A C e k IH|A q IHq k IHk];
    simpl; try done; intros Hp; eauto.
  - destruct Hp. split; eauto.
  - destruct Hp. split; eauto.
Qed.

Lemma keeps_id_updateStep name st data : keeps_id (updateStep name st data).
Proof. by repeat split. Qed.

Lemma keeps_id_convertAudioToWav : keeps_id convertAudioToWav.
Proof.
  unfold convertAudioToWav.
  apply keeps_id_bind; [apply keeps_id_updateStep|]. intros _ o [code ? ?|m]; simpl.
  - by case_bool_decide.
  - done.
Qed.

Lemma keeps_id_transcribeAudio dirname wavPath : keeps_id (transcribeAudio dirname wavPath).
Proof.
  unfold transcribeAudio.
  apply keeps_id_bind; [apply keeps_id_updateStep|]. intros _ [code ? ?|m]; simpl; [|done].
  case_bool_decide; [|done]. simpl. intros _ [raw|m]; simpl; [|done].
  repeat split; try done. intros t o [[]|m]; simpl; done.
Qed.

Lemma keeps_id_generateSummary text : keeps_id (generateSummary text).
Proof.
  unfold generateSummary.
  apply keeps_id_bind; [apply keeps_id_updateStep|].
  intros _ [[code out ?|m] [m'|]]; simpl; try done.
  destruct (bool_decide _ && _); [|done]. simpl.
  repeat split; try done. intros t o [[]|m]; simpl; done.
Qed.

Lemma keeps_id_attachToHubspot : keeps_id attachToHubspot.
Proof. unfold attachToHubspot. simpl. by repeat split. Qed.

Lemma keeps_id_cleanup : keeps_id cleanup.
Proof.
  unfold cleanup. simpl. intros o.
  destruct (JS.truthy _); [|done]. by destruct (wavFile _).
Qed.

Lemma keeps_id_process dirname : keeps_id (process dirname).
Proof.
  unfold process. apply keeps_id_try_catch; [|by repeat split].
  apply keeps_id_bind; [by repeat split|]. intros _.
  apply keeps_id_bind; [done|]. intros _.
  apply keeps_id_bind; [apply keeps_id_convertAudioToWav|]. intros wavPath.
  apply keeps_id_bind; [apply keeps_id_transcribeAudio|]. intros text.
  apply keeps_id_bind; [apply keeps_id_generateSummary|]. intros sum.
  apply keeps_id_bind; [done|]. intros o.
  apply keeps_id_bind.
  { destruct (metadata_attachToHubspot _); [|done].
    apply keeps_id_bind; [apply keeps_id_attachToHubspot|done]. }
  intros _. repeat split; try done. apply keeps_id_cleanup.
Qed.

Lemma keeps_id_process_in_background dirname :
  keeps_id (process_in_background dirname).
Proof.
  unfold process_in_background. apply keeps_id_try_catch; [|done].
  apply keeps_id_bind; [apply keeps_id_process|done].
Qed.

Lemma keeps_id_attach_and_reply : keeps_id attach_and_reply.
Proof.
  unfold attach_and_reply. apply keeps_id_try_catch; [|done].
  apply keeps_id_bind; [apply keeps_id_attachToHubspot|done].
Qed.

(** What a segment does to the identifier, the registry and the tasks
    of a program that keeps the identifier. *)
Lemma exec_keeps_id {A : Type} l (p : Prog A) o s r o' s' ts :
  keeps_id p →
  exec l p o s = (r, o', s', ts) →
  processId o' = processId o ∧
  (∀ id, processingJobs s' !! id = processingJobs s !! id ∨
         (id = processId o ∧ processingJobs s' !! id = Some l)) ∧
  Forall task_keeps_id ts ∧
  match r with
  | settled _ => True
  | waiting e k => ∀ b, keeps_id (k b)
  end.
Proof.
  revert o s r o' s' ts.
  induction p as [A a|A m|A m|A k IH|A f k IH|A k IH|A k IH|A B e k IH|A q IHq k IHk];
    intros o s r o' s' ts Hp Hexec; simpl in Hexec, Hp.
  - inversion Hexec; subst. split_and!; try done. by left.
  - inversion Hexec; subst. split_and!; try done. by left.
  - inversion Hexec; subst. split_and!; try done. by left.
  - by eapply IH.
  - destruct Hp as [Hf Hk].
    destruct (IH _ _ _ _ _ _ Hk Hexec) as (Hid & Hreg & Hts & Hr).
    rewrite Hf in Hid, Hreg. done.
  - destruct (IH _ _ _ _ _ _ Hp Hexec) as (Hid & Hreg & Hts & Hr).
    split_and!; try done. intros id. destruct (Hreg id) as [E|E]; [|by right].
    simpl in E. destruct (decide (processId o = id)) as [<-|Hne].
    + right. by rewrite E, lookup_insert_eq.
    + left. by rewrite E, lookup_insert_ne.
  - by eapply IH.
  - inversion Hexec; subst. split_and!; try done. intros id. by left.
  - destruct Hp as [Hq Hk].
    destruct (exec l q o s) as [[[rq o1] s1] ts1] eqn:Eq.
    destruct (IHq _ _ _ _ _ _ Hq Eq) as (Hid1 & Hreg1 & Hts1 & Hr1).
    assert (∀ rk o2 s2 ts2, exec l k o1 s1 = (rk, o2, s2, ts2) →
            (rk, o2, s2, ts1 ++ child_task l rq ++ ts2) = (r, o', s', ts) →
            processId o' = processId o ∧
            (∀ id, processingJobs s' !! id = processingJobs s !! id ∨
                   (id = processId o ∧ processingJobs s' !! id = Some l)) ∧
            Forall task_keeps_id ts ∧
            match r with
            | settled _ => True
            | waiting e k => ∀ b, keeps_id (k b)
            end) as Hgo.
    { intros rk o2 s2 ts2 Ek Heq. inversion Heq; subst.
      destruct (IHk _ _ _ _ _ _ Hk Ek) as (Hid2 & Hreg2 & Hts2 & Hr2).
      split_and!; try done.
      - congruence.
      - intros id. destruct (Hreg2 id) as [E|[-> E]].
        + rewrite E. apply Hreg1.
        + right. by rewrite Hid1 in *.
      - rewrite !Forall_app. split_and!; try done.
        destruct rq as [|B e kq]; simpl; [done|]. repeat constructor.
        intros b. simpl. by apply keeps_id_bind. }
    destruct (exec l k o1 s1) as [[[rk o2] s2] ts2] eqn:Ek.
    destruct rq as [[a|m|m]|B e kq]; try (by eapply Hgo).
    by inversion Hexec; subst.
Qed.

Lemma start_well_formed l p σ :
  keeps_id p → well_formed σ → well_formed (start l p σ).
Proof.
  intros Hp [Hts Hevs Hids]. destruct (heap σ !! l) as [o|] eqn:Hl.
  - assert (l < length (heap σ)) as Hlt by by eapply lookup_lt_Some.
    destruct (start_frame l p σ)
      as (Hlen & _ & _ & _ & (evs & He & Fe) & _ & ts & Hts' & Fts).
    split; rewrite ?Hlen.
    + rewrite Hts'. apply Forall_app. split; [done|].
      eapply Forall_impl; [done|]. by intros t ->.
    + rewrite He. apply Forall_app. split; [done|].
      eapply Forall_impl; [done|]. by intros le ->.
    + unfold start. rewrite Hl.
      destruct (exec l p o (shared σ)) as [[[r o'] s'] children] eqn:Hexec.
      destruct (exec_keeps_id _ _ _ _ _ _ _ _ Hp Hexec) as (_ & _ & Hch & Hr).
      simpl. rewrite !Forall_app. split_and!; try done.
      destruct r; simpl; by repeat constructor.
  - destruct (start_frame l p σ) as (_ & _ & Hsame & _). by rewrite Hsame.
Qed.

Lemma respond_well_formed r σ : well_formed σ → well_formed (respond r σ).
Proof. intros [? ? ?]. by split. Qed.

Lemma set_clock_well_formed t σ : well_formed σ → well_formed (set_clock t σ).
Proof. intros [? ? ?]. by split. Qed.

Lemma step_well_formed dirname σ tn σ' :
  step dirname σ tn σ' → well_formed σ → well_formed σ'.
Proof.
  intros [σ0 t tn0 [Hup Hen]] Hwf. apply (set_clock_well_formed t) in Hwf.
  destruct tn0 as [req uuid|id|id|i task b]; simpl.
  - unfold post_process_audio.
    destruct (req_file req) as [file|]; [|by apply respond_well_formed].
    apply respond_well_formed, start_well_formed;
      [apply keeps_id_process_in_background|].
    destruct Hwf as [Hts Hevs Hids].
    split; simpl; rewrite ?length_app; simpl; [| |done].
    + eapply Forall_impl; [exact Hts|]. simpl. lia.
    + eapply Forall_impl; [exact Hevs|]. simpl. lia.
  - unfold get_status.
    destruct (processingJobs_get _ id); by apply respond_well_formed.
  - unfold post_hubspot_attach.
    destruct (processingJobs _ !! id) as [l|]; [|by apply respond_well_formed].
    destruct (heap _ !! l) as [job|]; [|by apply respond_well_formed].
    case_bool_decide; [by apply respond_well_formed|].
    by apply start_well_formed; [apply keeps_id_attach_and_reply|].
  - unfold resume. simpl in Hen. destruct Hwf as [Hts Hevs Hids].
    apply start_well_formed.
    + eapply Forall_lookup_1 in Hids; [|exact Hen]. apply Hids.
    + split; simpl; [|done|]; by apply Forall_delete.
Qed.

(** C1.  A job is submitted to a server and its conversion fails: the
    first completion delivered to it is a child process that exited
    with a non-zero status (or was ended by a signal) or could not be
    launched.  Then, whatever turns the server takes before and after,
    the job has halted in every later state: [status] is [error] with
    an error message, the conversion step is [error], the transcription,
    summary and attach steps are still [pending], no task of the job is
    left, and neither whisper-cli nor ollama has been started for it. *)
Theorem conversion_failure_halts dirname σ t req uuid file tns σ' :
  well_formed σ →
  req_file req = Some file →
  steps_to dirname (post_process_audio dirname req uuid (set_clock t σ)) tns σ' →
  first_completion_fails (length (heap σ)) tns = true →
  conversion_halted (length (heap σ)) uuid σ'.
Proof.
  intros Hwf Hfile Hsteps Hfirst.
  assert (well_formed (set_clock t σ)) as Hwf' by by destruct Hwf.
  destruct (submitted_job dirname (set_clock t σ) req uuid file Hwf' Hfile)
    as (Hl & Ht & Hi).
  eapply (waiting_steps dirname (set_clock t σ) req uuid file);
    [exact Hl|exact Ht|by rewrite Hi|by rewrite Hi|exact Hsteps|exact Hfirst].
Qed.

Lemma conversion_failure_halts_witness :
  conversion_halted 0 "job-1"
    (take_turn "/srv/app" "2024-05-06T07:00:03.000Z"
       (Complete 0 (oldest_task (submitted "/srv/app"))
          (close (Some 1%Z) "" "Invalid data found when processing input"))
       (submitted "/srv/app")).
Proof.
  apply (conversion_failure_halts "/srv/app" initial_server
           "2024-05-06T07:00:00.000Z" form_asking_for_attach "job-1"
           (mkUploadedFile "uploads/u_meeting.m4a" "meeting.m4a")
           [Complete 0 (oldest_task (submitted "/srv/app"))
              (close (Some 1%Z) "" "Invalid data found when processing input")]).
  - apply initial_server_well_formed.
  - reflexivity.
  - eapply steps_cons; [|apply steps_nil].
    by apply (step_turn "/srv/app" _ "2024-05-06T07:00:03.000Z").
  - reflexivity.
Defined.

(** ** C8: the record under an identifier stays the same record *)

Lemma start_owns l' p l id σ :
  keeps_id p → owns l id σ → owns l id (start l' p σ).
Proof.
  intros Hp Hown. unfold start.
  destruct (heap σ !! l') as [o|] eqn:Hl'; [|done].
  destruct Hown as (Hreg & (ol & Hol & Hid) & Huniq).
  destruct (exec l' p o (shared σ)) as [[[r o'] s'] children] eqn:Hexec.
  destruct (exec_keeps_id _ _ _ _ _ _ _ _ Hp Hexec) as (Hsame & Hgrow & _ & _).
  assert (l' < length (heap σ)) as Hlt by by eapply lookup_lt_Some.
  split_and!; simpl.
  - destruct (Hgrow id) as [E|[E1 E2]]; [by rewrite E|].
    rewrite E2. f_equal. by eapply Huniq.
  - destruct (decide (l' = l)) as [->|Hne].
    + exists o'. rewrite list_lookup_insert_eq by done. split; [done|].
      congruence.
    + exists ol. by rewrite list_lookup_insert_ne.
  - intros l0 o0 Hl0 Hid0. destruct (decide (l' = l0)) as [->|Hne].
    + rewrite list_lookup_insert_eq in Hl0 by done.
      eapply Huniq; [done|]. congruence.
    + rewrite list_lookup_insert_ne in Hl0 by done. by eapply Huniq.
Qed.

Section RegistryRecord.

Context (dirname : string).

Lemma submission_owns req uuid file σ :
  req_file req = Some file → fresh_id uuid σ →
  owns (length (heap σ)) uuid (post_process_audio dirname req uuid σ).
Proof.
  intros Hfile Hfresh. unfold post_process_audio. rewrite Hfile.
  apply (start_owns _ _ _ _ _ (keeps_id_process_in_background dirname)).
  split_and!; simpl.
  - apply lookup_insert_eq.
  - eexists. split; [apply list_lookup_middle; done|done].
  - intros l o Hl Hid. apply lookup_app_Some in Hl as [Hl|[Hge Hl]].
    + by destruct (Hfresh _ _ Hl).
    + apply list_lookup_singleton_Some in Hl as [Hl _]. lia.
Qed.

Lemma step_owns l id σ tn σ' :
  step dirname σ tn σ' → draws_again id tn = false →
  well_formed σ → owns l id σ → owns l id σ'.
Proof.
  intros [σ0 t tn0 [Hup Hen]] Hdraw Hwf Hown.
  assert (owns l id (set_clock t σ0)) as Hown' by done. clear Hown.
  apply (set_clock_well_formed t) in Hwf.
  destruct tn0 as [req uuid|id'|id'|i task b]; simpl.
  - unfold post_process_audio. destruct (req_file req) as [file|]; [|done].
    apply (start_owns _ _ _ _ _ (keeps_id_process_in_background dirname)).
    simpl in Hdraw. apply String.eqb_neq in Hdraw.
    destruct Hown' as (Hreg & (ol & Hol & Hid) & Huniq). split_and!; simpl.
    + by rewrite lookup_insert_ne.
    + exists ol. split; [|done]. by apply lookup_app_l_Some.
    + intros l0 o0 Hl0 Hid0. apply lookup_app_Some in Hl0 as [Hl0|[Hge Hl0]].
      * by eapply Huniq.
      * apply list_lookup_singleton_Some in Hl0 as [_ <-]. done.
  - unfold get_status. by destruct (processingJobs_get _ id').
  - unfold post_hubspot_attach.
    destruct (processingJobs _ !! id') as [l0|]; [|done].
    destruct (heap _ !! l0) as [job|]; [|done].
    case_bool_decide; [done|].
    by apply start_owns; [apply keeps_id_attach_and_reply|].
  - unfold resume. simpl in Hen. destruct Hwf as [_ _ Hids].
    apply start_owns.
    + eapply Forall_lookup_1 in Hids; [|exact Hen]. apply Hids.
    + done.
Qed.

Lemma steps_own l id σ tns σ' :
  steps_to dirname σ tns σ' →
  Forall (λ tn, draws_again id tn = false) tns →
  well_formed σ → owns l id σ → owns l id σ'.
Proof.
  induction 1 as [|σ1 tn σ2 tns σ3 Hstep Hsteps IH]; [done|].
  intros Hall Hwf Hown. apply Forall_cons in Hall as [Hd Hall].
  apply IH; [done|by eapply step_well_formed|by eapply step_owns].
Qed.

Lemma submission_well_formed req uuid t σ :
  well_formed σ →
  well_formed (post_process_audio dirname req uuid (set_clock t σ)).
Proof.
  intros Hwf. apply (set_clock_well_formed t) in Hwf.
  unfold post_process_audio.
  destruct (req_file req) as [file|]; [|by apply respond_well_formed].
  apply respond_well_formed, start_well_formed;
    [apply keeps_id_process_in_background|].
  destruct Hwf as [Hts Hevs Hids].
  split; simpl; rewrite ?length_app; simpl; [| |done].
  - eapply Forall_impl; [exact Hts|]. simpl. lia.
  - eapply Forall_impl; [exact Hevs|]. simpl. lia.
Qed.

(** C8.  Once a job record has been created by a submission, every
    sequence of later turns of the server (further submissions, status
    queries, post-hoc attach requests, completions of external
    operations of any job) leaves a record under the job's identifier:
    [processingJobs.get] on it succeeds in every later state.  When the
    identifier was not in use before and no later submission draws it
    again, the record found is the one the submission created: the
    same object, still carrying the identifier. *)
Theorem job_record_never_removed σ t req uuid file tns σ' :
  req_file req = Some file →
  steps_to dirname (post_process_audio dirname req uuid (set_clock t σ)) tns σ' →
  is_Some (processingJobs_get σ' uuid) ∧
  (well_formed σ → fresh_id uuid σ →
   Forall (λ tn, draws_again uuid tn = false) tns →
   processingJobs (shared σ') !! uuid = Some (length (heap σ)) ∧
   ∃ o, processingJobs_get σ' uuid = Some o ∧ processId o = uuid).
Proof.
  intros Hfile Hsteps. split.
  - eapply steps_keep_jobs; [done|]. by eapply submitted_job_registered.
  - intros Hwf Hfresh Hall.
    destruct (steps_own (length (heap σ)) uuid _ _ _ Hsteps Hall)
      as (Hreg & (o & Ho & Hid) & _).
    + by apply submission_well_formed.
    + by apply (submission_owns req uuid file (set_clock t σ)).
    + split; [done|]. exists o. split; [|done].
      unfold processingJobs_get. by rewrite Hreg.
Qed.

End RegistryRecord.

Lemma initial_server_fresh id : fresh_id id initial_server.
Proof. intros l o Hl. done. Qed.

Lemma job_record_never_removed_witness :
  let σ' :=
    take_turn "/srv/app" "2024-05-06T07:00:02.000Z" (AttachHubspot "job-1")
      (take_turn "/srv/app" "2024-05-06T07:00:01.000Z" (QueryStatus "job-1")
         (submitted "/srv/app")) in
  is_Some (processingJobs_get σ' "job-1") ∧
  processingJobs (shared σ') !! "job-1" = Some 0 ∧
  ∃ o, processingJobs_get σ' "job-1" = Some o ∧ processId o = "job-1".
Proof.
  intros σ'.
  destruct (job_record_never_removed "/srv/app" initial_server
           "2024-05-06T07:00:00.000Z" form_asking_for_attach "job-1"
           (mkUploadedFile "uploads/u_meeting.m4a" "meeting.m4a")
           [QueryStatus "job-1"; AttachHubspot "job-1"] σ') as [Hget Hsame].
  - reflexivity.
  - eapply steps_cons; [by apply (step_turn "/srv/app" _ "2024-05-06T07:00:01.000Z")|].
    eapply steps_cons; [by apply (step_turn "/srv/app" _ "2024-05-06T07:00:02.000Z")|].
    apply steps_nil.
  - split; [exact Hget|]. apply Hsame.
    + apply initial_server_well_formed.
    + apply initial_server_fresh.
    + by repeat constructor.
Defined.

(** ** Reading a job record *)

Lemma step_of_put_step_eq name st data o :
  step_of (put_step name st data o) name = Some st.
Proof. unfold step_of, put_step. simpl. by rewrite lookup_insert_eq. Qed.

Lemma step_of_put_step_ne name name' st data o :
  name ≠ name' → step_of (put_step name st data o) name' = step_of o name'.
Proof. intros. unfold step_of, put_step. simpl. by rewrite lookup_insert_ne. Qed.

Lemma step_of_set_status v o name : step_of (set_status v o) name = step_of o name.
Proof. reflexivity. Qed.

Lemma step_of_set_error v o name : step_of (set_error v o) name = step_of o name.
Proof. reflexivity. Qed.

Lemma step_of_set_wavFile v o name : step_of (set_wavFile v o) name = step_of o name.
Proof. reflexivity. Qed.

Lemma step_of_set_transcription v o name :
  step_of (set_transcription v o) name = step_of o name.
Proof. reflexivity. Qed.

Lemma step_of_set_summary v o name : step_of (set_summary v o) name = step_of o name.
Proof. reflexivity. Qed.

Lemma step_of_new id file md name :
  name ∈ ["conversion"; "transcription"; "summary"; "hubspot"] →
  step_of (new_AudioProcessor id file md) name = Some pending.
Proof.
  intros Hin. unfold step_of, new_AudioProcessor. simpl.
  repeat (apply elem_of_cons in Hin as [->|Hin]; [by simplify_map_eq|]).
  by apply elem_of_nil in Hin.
Qed.

(** Reads the status of a step through the updates of a run. *)
Ltac read_step :=
  unfold attached, summarized, transcribed, converted;
  repeat first
    [ rewrite step_of_set_status | rewrite step_of_set_error
    | rewrite step_of_set_wavFile | rewrite step_of_set_transcription
    | rewrite step_of_set_summary
    | rewrite step_of_put_step_eq
    | rewrite step_of_put_step_ne by discriminate
    | rewrite step_of_new by (repeat constructor) ];
  try reflexivity.

Ltac read_step_in H :=
  unfold attached, summarized, transcribed, converted in H;
  repeat first
    [ rewrite step_of_set_status in H | rewrite step_of_set_error in H
    | rewrite step_of_set_wavFile in H | rewrite step_of_set_transcription in H
    | rewrite step_of_set_summary in H
    | rewrite step_of_put_step_eq in H
    | rewrite step_of_put_step_ne in H by discriminate
    | rewrite step_of_new in H by (repeat constructor) ].

(** Reads a field of the object through the updates of a run. *)
Ltac read_field :=
  unfold attached, summarized, transcribed, converted;
  cbn [fst snd processId audioFile metadata status steps results this_error
       wavFile transcription summary set_status set_steps set_results
       set_error set_wavFile set_transcription set_summary put_step
       new_AudioProcessor];
  try reflexivity.

Lemma issued_by_awaited {B : Type} env l l' P (e : ext B) s :
  issued_by l P (awaited env l' e s) =
  (issued_by l P s + if bool_decide (l' = l) && P (event_of e) then 1 else 0)%nat.
Proof.
  unfold issued_by. simpl. rewrite List.filter_app, length_app. simpl.
  by destruct (bool_decide (l' = l) && P (event_of e)).
Qed.

Lemma issued_by_issued l P s s' evs :
  issued s' = issued s ++ evs →
  issued_by l P s' =
  (issued_by l P s +
   length (List.filter (λ le : loc * event, bool_decide (le.1 = l) && P le.2) evs))%nat.
Proof. intros E. unfold issued_by. by rewrite E, List.filter_app, length_app. Qed.

Lemma issued_by_jobs_set id l l' P s :
  issued_by l P (jobs_set id l' s) = issued_by l P s.
Proof. reflexivity. Qed.

Lemma truthy_wavOutputPath id : JS.truthy (Some (wavOutputPath id)) = true.
Proof. reflexivity. Qed.

(** ** The first two stages *)

Section FirstStages.

Context (dirname : string) (env : Oracle) (l : loc).
Context (id file : string) (md : Metadata) (s : Shared).

Local Abbreviation wav := (wavOutputPath id).
Local Abbreviation txt := (wav +:+ ".txt").
Local Abbreviation o0 := (new_AudioProcessor id file md).

Lemma run_conversion_ok :
  conversion_succeeds env id file →
  run env l convertAudioToWav (set_status processing o0) (jobs_set id l s) =
  (returned wav, converted wav (set_status processing o0),
   jobs_set id l (awaited env l (ffmpeg_spawn file wav)
     (jobs_set id l (jobs_set id l s)))).
Proof.
  unfold conversion_succeeds. intros Hc.
  rewrite run_convertAudioToWav. simpl processId. simpl audioFile.
  destruct (answer env ChildResult (ffmpeg_spawn file wav)) as [code ? ?|?]; [|done].
  simpl in Hc. by rewrite Hc.
Qed.

Lemma run_transcription_ok raw o s1 :
  processId o = id → metadata o = md →
  transcription_succeeds dirname env id md raw →
  run env l (transcribeAudio dirname wav) o s1 =
  (returned (JS.trim raw), transcribed (JS.trim raw) o,
   awaited env l (fs_unlink txt)
     (awaited env l
        (fs_writeFile (transcriptSavePath (transcript_iso env id) md) (JS.trim raw))
        (jobs_set id l
           (awaited env l (fs_readFile txt)
              (awaited env l (setTimeout 1000)
                 (awaited env l (whisper_spawn dirname wav)
                    (jobs_set id l s1))))))).
Proof.
  intros Hid Hmd (Hw & Hr & Hwr). unfold transcript_iso in *.
  rewrite run_transcribeAudio. rewrite Hid, Hmd.
  destruct (answer env ChildResult (whisper_spawn dirname wav)) as [code ? ?|?]; [|done].
  simpl in Hw. rewrite Hw, Hr. cbv zeta. by rewrite Hwr.
Qed.

End FirstStages.

(** ** The runs of a job, by where it stops *)

Section Scenarios.

Context (dirname : string) (env : Oracle) (l : loc).
Context (id file : string) (md : Metadata) (s : Shared).

Local Abbreviation wav := (wavOutputPath id).
Local Abbreviation txt := (wav +:+ ".txt").
Local Abbreviation o0 := (new_AudioProcessor id file md).
Local Abbreviation o1 := (converted wav (set_status processing o0)).
Local Abbreviation s1 := (jobs_set id l (awaited env l (ffmpeg_spawn file wav)
            (jobs_set id l (jobs_set id l s)))).

Local Ltac object_simpl :=
  cbn [fst snd processId audioFile metadata status steps results this_error
       wavFile transcription summary set_status set_steps set_results
       set_error set_wavFile set_transcription set_summary put_step
       new_AudioProcessor];
  rewrite ?truthy_wavOutputPath.

(** Conversion succeeds, whisper-cli does not exit with zero. *)
Lemma run_whisper_fails :
  conversion_succeeds env id file →
  exit_zero (answer env _ (whisper_spawn dirname wav)) = false →
  ∃ m data,
    run env l (process dirname) o0 s =
    (thrown m,
     set_error m (set_status error
       (put_step "transcription" error data
          (put_step "transcription" processing no_data o1))),
     jobs_set id l (jobs_set id l
       (awaited env l (whisper_spawn dirname wav) (jobs_set id l s1)))).
Proof.
  intros Hc Hw. rewrite run_process. simpl processId.
  rewrite run_conversion_ok by done.
  rewrite run_transcribeAudio. unfold converted. object_simpl.
  destruct (answer env ChildResult (whisper_spawn dirname wav)) as [code ? ?|m].
  - simpl in Hw. rewrite Hw. unfold caught. object_simpl. by eexists _, _.
  - unfold caught. object_simpl. by eexists _, _.
Qed.

Context (raw : string).

Local Abbreviation transcript_path := (transcriptSavePath (transcript_iso env id) md).
Local Abbreviation o2 := (transcribed (JS.trim raw) o1).
Local Abbreviation s2 := (awaited env l (fs_unlink txt)
    (awaited env l (fs_writeFile transcript_path (JS.trim raw))
       (jobs_set id l
          (awaited env l (fs_readFile txt)
             (awaited env l (setTimeout 1000)
                (awaited env l (whisper_spawn dirname wav)
                   (jobs_set id l s1))))))).
Local Abbreviation ollama := (ollama_spawn (legalPrompt (JS.trim raw))).

Lemma run_two_stages :
  conversion_succeeds env id file →
  transcription_succeeds dirname env id md raw →
  run env l (process dirname) o0 s =
  match run env l (generateSummary (JS.trim raw)) o2 s2 with
  | (thrown m, o3, s3) => caught l (m, o3, s3)
  | (crashed m, o3, s3) => (crashed m, o3, s3)
  | (returned sum, o3, s3) =>
      match (if metadata_attachToHubspot (metadata o3)
             then run env l attachToHubspot o3 s3
             else (returned (true, ""), o3, s3)) with
      | (thrown m, o4, s4) => caught l (m, o4, s4)
      | (crashed m, o4, s4) => (crashed m, o4, s4)
      | (returned _, o4, s4) =>
          let o5 := set_status completed o4 in
          (returned (mkProcessResult (JS.trim raw) sum (metadata o5)), o5,
           (run env l cleanup o5 (jobs_set (processId o5) l s4)).2)
      end
  end.
Proof.
  intros Hc Ht. rewrite run_process. simpl processId.
  rewrite run_conversion_ok by done.
  by rewrite (run_transcription_ok dirname env l id md raw o1 s1).
Qed.

(** The first two stages succeed; the prompt cannot be written to
    the standard input of ollama. *)
Lemma run_summary_crashes m :
  conversion_succeeds env id file →
  transcription_succeeds dirname env id md raw →
  stdin_error (answer env _ ollama) = Some m →
  run env l (process dirname) o0 s =
  (crashed m, put_step "summary" processing no_data o2,
   awaited env l ollama (jobs_set id l s2)).
Proof.
  intros Hc Ht Hin. rewrite run_two_stages by done.
  rewrite run_generateSummary. unfold transcribed, converted.
  object_simpl. by rewrite Hin.
Qed.

(** The first two stages succeed and ollama is given the prompt, but
    the summary does not succeed. *)
Lemma run_summary_fails :
  conversion_succeeds env id file →
  transcription_succeeds dirname env id md raw →
  stdin_error (answer env _ ollama) = None →
  (∀ out, ¬ summary_succeeds env raw out) →
  ∃ m data,
    run env l (process dirname) o0 s =
    (thrown m,
     set_error m (set_status error
       (put_step "summary" error data
          (put_step "summary" processing no_data o2))),
     jobs_set id l (jobs_set id l (awaited env l ollama (jobs_set id l s2)))).
Proof.
  intros Hc Ht Hin Hno. rewrite run_two_stages by done.
  rewrite run_generateSummary. unfold transcribed, converted.
  object_simpl.
  destruct (answer env PipedResult ollama) as [[code out err|m] sin] eqn:Ho;
    simpl in Hin; subst sin; cbn [stdin_error child_result].
  - destruct (bool_decide (code = Some 0%Z) && JS.truthy (Some (JS.trim out))) eqn:Hok.
    + apply andb_true_iff in Hok as [Hcode Hout].
      apply bool_decide_eq_true in Hcode as ->. apply truthy_trim in Hout.
      destruct (Hno out). split; [by exists err|done].
    + unfold caught. object_simpl. by eexists _, _.
  - unfold caught. object_simpl. by eexists _, _.
Qed.

Context (out : string).

Local Abbreviation summary_path := (summarySavePath (summary_iso env raw) md).
Local Abbreviation o3 := (summarized (JS.trim out) o2).
Local Abbreviation s3 := (awaited env l (fs_writeFile summary_path (JS.trim out))
            (jobs_set id l (awaited env l ollama (jobs_set id l s2)))).
Local Abbreviation s4 := (jobs_set id l (awaited env l (hubspot_api 1000) (jobs_set id l s3))).
Local Abbreviation result := (mkProcessResult (JS.trim raw) (JS.trim out) md).

Hypothesis adapters_ok : adapters_succeed dirname env id file md raw out.

Lemma run_three_stages :
  run env l (process dirname) o0 s =
  (if metadata_attachToHubspot md then
     (returned result, set_status completed (attached o3),
      awaited env l (fs_unlink wav) (jobs_set id l s4))
   else
     (returned result, set_status completed o3,
      awaited env l (fs_unlink wav) (jobs_set id l s3))).
Proof.
  destruct adapters_ok as (Hc & Ht & (err & Ho) & Hne).
  rewrite run_two_stages by done.
  rewrite run_generateSummary. unfold transcribed, converted.
  object_simpl. rewrite Ho. cbn [stdin_error child_result].
  rewrite bool_decide_true by done.
  rewrite (proj2 (truthy_trim _) Hne). cbv zeta. simpl andb. cbv iota.
  object_simpl.
  unfold attached, summarized, transcribed, converted, summary_iso.
  destruct (metadata_attachToHubspot md).
  - rewrite run_attachToHubspot.
    cbv beta iota zeta. rewrite run_cleanup. object_simpl. reflexivity.
  - cbv beta iota zeta. rewrite run_cleanup. object_simpl. reflexivity.
Qed.

Lemma issued_three_stages :
  issued s3 = issued s ++
    [(l, event_of (ffmpeg_spawn file wav));
     (l, event_of (whisper_spawn dirname wav));
     (l, event_of (setTimeout 1000));
     (l, event_of (fs_readFile txt));
     (l, event_of (fs_writeFile transcript_path (JS.trim raw)));
     (l, event_of (fs_unlink txt));
     (l, event_of ollama);
     (l, event_of (fs_writeFile summary_path (JS.trim out)))].
Proof.
  repeat first [rewrite issued_awaited | rewrite issued_jobs_set].
  by rewrite <- !app_assoc.
Qed.

End Scenarios.

(** ** Artifact paths *)

Lemma transcript_path_not_summary_path iso md iso' md' :
  transcriptSavePath iso md ≠ summarySavePath iso' md'.
Proof. done. Qed.

Lemma transcript_path_not_temp iso md id suffix :
  transcriptSavePath iso md ≠ wavOutputPath id +:+ suffix.
Proof. done. Qed.

Lemma summary_path_not_temp iso md id suffix :
  summarySavePath iso md ≠ wavOutputPath id +:+ suffix.
Proof. done. Qed.

Lemma transcript_path_not_temp_wav iso md id :
  transcriptSavePath iso md ≠ wavOutputPath id.
Proof. done. Qed.

Lemma summary_path_not_temp_wav iso md id :
  summarySavePath iso md ≠ wavOutputPath id.
Proof. done. Qed.







(** ** Strings outside ASCII *)

(** One hyphen for a character of the Basic Multilingual Plane, two for
    one outside it, as the code units of the string are replaced. *)
Lemma replace_non_alnum_code_units :
  JS.replace_non_alnum "Zoë" = "Zo-" ∧
  JS.replace_non_alnum "Søren & Æsa" = "S-ren----sa" ∧
  JS.replace_non_alnum "東京 12" = "---12" ∧
  JS.replace_non_alnum "A😀b" = "A--b".
Proof. by vm_compute. Qed.

(** [trim] removes the no-break space, the byte order mark and the
    line separator with the ASCII blanks, at both ends, and keeps them
    inside the text. *)
Lemma trim_unicode_blanks :
  JS.trim (no_break_space +:+ line_feed) = "" ∧
  JS.trim (byte_order_mark +:+ "  HELLO" +:+ no_break_space +:+ "THERE "
           +:+ line_separator +:+ line_feed)
    = "HELLO" +:+ no_break_space +:+ "THERE" ∧
  JS.trim "été" = "été".
Proof. by vm_compute. Qed.

(** [trimStart] strips all the white space a string starts with: the
    fuel it is given, a step for every byte, is never used up. *)
Lemma white_space_le s : (JS.white_space s ≤ String.length s)%nat.
Proof.
  destruct s as [|c1 [|c2 [|c3 r]]]; simpl; try lia;
    repeat match goal with
           | |- context [if ?b then _ else _] => destruct b
           end; lia.
Qed.

Lemma length_drop_bytes n s :
  String.length (JS.drop_bytes n s) = (String.length s - n)%nat.
Proof.
  revert s. induction n as [|n IH]; intros [|c r]; simpl; try done; lia.
Qed.

Lemma trimStart_within_done fuel s :
  (String.length s ≤ fuel)%nat → JS.white_space (JS.trimStart_within fuel s) = 0%nat.
Proof.
  revert s. induction fuel as [|fuel IH]; intros s Hlen.
  - destruct s; [done|simpl in Hlen; lia].
  - cbn [JS.trimStart_within].
    pose proof (white_space_le s) as Hle.
    destruct (JS.white_space s) as [|n] eqn:Hw; [done|].
    apply IH. rewrite length_drop_bytes. lia.
Qed.

Lemma trimStart_done s : JS.white_space (JS.trimStart s) = 0%nat.
Proof. by apply trimStart_within_done. Qed.
(** ** Files on stable storage *)


(** The turn in which an operation completes changes the files as the
    operation does, whatever the server holds and whatever the promise
    chain that waited for it goes on to do. *)
Lemma completion_settles dirname t i task b σ :
  disk (shared (take_turn dirname t (Complete i task b) σ)) =
  disk_after (task_event task) b (disk (shared σ)).
Proof.
  simpl. unfold resume.
  match goal with
  | |- disk (shared (start ?l ?p ?σ0)) = _ =>
      destruct (start_frame l p σ0) as (_ & _ & _ & _ & _ & Hdisk & _)
  end.
  by rewrite Hdisk.
Qed.

(** No other turn changes the files. *)
Lemma request_keeps_disk dirname t tn σ :
  (∀ i task b, tn ≠ Complete i task b) →
  disk (shared (take_turn dirname t tn σ)) = disk (shared σ).
Proof.
  intros Hreq. destruct tn as [req uuid|id|id|i task b]; simpl.
  - unfold post_process_audio. destruct (req_file req) as [file|]; [|done].
    unfold respond. simpl.
    match goal with
    | |- disk (shared (start ?l ?p ?σ0)) = _ =>
        destruct (start_frame l p σ0) as (_ & _ & _ & _ & _ & Hdisk & _)
    end.
    by rewrite Hdisk.
  - unfold get_status. by destruct (processingJobs_get _ id).
  - unfold post_hubspot_attach.
    destruct (processingJobs _ !! id) as [l|]; [|done].
    destruct (heap _ !! l) as [job|]; [|done].
    case_bool_decide; [done|].
    match goal with
    | |- disk (shared (start ?l ?p ?σ0)) = _ =>
        destruct (start_frame l p σ0) as (_ & _ & _ & _ & _ & Hdisk & _)
    end.
    by rewrite Hdisk.
  - by destruct (Hreq i task b).
Qed.

(** A file stays on stable storage through every turn that does not
    complete an [fs.unlink] of its path: another write to the path
    replaces its content, and leaves a file. *)
Lemma step_keeps_file dirname p σ tn σ' :
  step dirname σ tn σ' → unlinks p tn = false →
  is_Some (disk (shared σ) !! p) → is_Some (disk (shared σ') !! p).
Proof.
  intros [σ0 t tn0 _] Hun Hfile.
  destruct tn0 as [req uuid|id|id|i [l B e k] b];
    try (by rewrite request_keeps_disk).
  rewrite completion_settles. simpl in *.
  destruct e as [| | | |path data|path|]; try done.
  - destruct b; simpl; [|done].
    destruct (decide (path = p)) as [->|Hne];
      [by rewrite lookup_insert_eq | by rewrite lookup_insert_ne].
  - destruct b; simpl; [|done].
    unfold is_unlink_of in Hun. simpl in Hun.
    apply String.eqb_neq in Hun. by rewrite lookup_delete_ne.
Qed.

Lemma steps_keep_file dirname p σ tns σ' :
  steps_to dirname σ tns σ' → Forall (λ tn, unlinks p tn = false) tns →
  is_Some (disk (shared σ) !! p) → is_Some (disk (shared σ') !! p).
Proof.
  induction 1 as [|σ1 tn σ2 tns σ3 Hstep Hsteps IH]; [done|].
  intros Hall Hfile. apply Forall_cons in Hall as [Hun Hall].
  apply IH; [done|]. by eapply step_keeps_file.
Qed.

(** ** C2 and C10: the job whose adapters succeed *)

Section Success.

Context (dirname : string) (env : Oracle) (l : loc).
Context (id file : string) (md : Metadata) (s : Shared) (raw out : string).

Local Abbreviation wav := (wavOutputPath id).
Local Abbreviation txt := (wav +:+ ".txt").
Local Abbreviation transcript_path := (transcriptSavePath (transcript_iso env id) md).
Local Abbreviation summary_path := (summarySavePath (summary_iso env raw) md).
Local Abbreviation transcript_write := (fs_writeFile transcript_path (JS.trim raw)).
Local Abbreviation summary_write := (fs_writeFile summary_path (JS.trim out)).

(** What a successful run leaves, whether or not attach was asked for. *)
Lemma run_success :
  adapters_succeed dirname env id file md raw out →
  ∃ o' s',
    run env l (process dirname) (new_AudioProcessor id file md) s =
      (returned (mkProcessResult (JS.trim raw) (JS.trim out) md), o', s') ∧
    status o' = completed ∧
    step_of o' "conversion" = Some completed ∧
    step_of o' "transcription" = Some completed ∧
    step_of o' "summary" = Some completed ∧
    step_of o' "hubspot" =
      Some (if metadata_attachToHubspot md then completed else pending) ∧
    results o' = mkResults (Some wav) (Some (JS.trim raw)) (Some (JS.trim out)) ∧
    this_error o' = None ∧
    issued s' = issued s ++
      [(l, event_of (ffmpeg_spawn file wav));
       (l, event_of (whisper_spawn dirname wav));
       (l, event_of (setTimeout 1000));
       (l, event_of (fs_readFile txt));
       (l, event_of transcript_write);
       (l, event_of (fs_unlink txt));
       (l, event_of (ollama_spawn (legalPrompt (JS.trim raw))));
       (l, event_of summary_write)] ++
      (if metadata_attachToHubspot md
       then [(l, event_of (hubspot_api 1000))] else []) ++
      [(l, event_of (fs_unlink wav))].
Proof.
  intros Hok. rewrite (run_three_stages _ _ _ _ _ _ _ _ _ Hok).
  pose proof (issued_three_stages dirname env l id file md s raw out) as Hiss.
  destruct (metadata_attachToHubspot md).
  - eexists _, _. split; [reflexivity|].
    split_and!; try (by read_step); try (by read_field).
    rewrite !issued_awaited, !issued_jobs_set, !issued_awaited, !issued_jobs_set.
    rewrite Hiss. by rewrite <- !app_assoc.
  - eexists _, _. split; [reflexivity|].
    split_and!; try (by read_step); try (by read_field).
    rewrite !issued_awaited, !issued_jobs_set.
    rewrite Hiss. by rewrite <- !app_assoc.
Qed.

(** The two files a successful run asks for. *)
Lemma written_files_success s' :
  issued s' = issued s ++
    [(l, event_of (ffmpeg_spawn file wav));
     (l, event_of (whisper_spawn dirname wav));
     (l, event_of (setTimeout 1000));
     (l, event_of (fs_readFile txt));
     (l, event_of transcript_write);
     (l, event_of (fs_unlink txt));
     (l, event_of (ollama_spawn (legalPrompt (JS.trim raw))));
     (l, event_of summary_write)] ++
    (if metadata_attachToHubspot md
     then [(l, event_of (hubspot_api 1000))] else []) ++
    [(l, event_of (fs_unlink wav))] →
  written_files l s' =
    written_files l s ++
    [(transcript_path, JS.trim raw); (summary_path, JS.trim out)].
Proof.
  intros Hiss. unfold written_files. rewrite Hiss, omap_app. f_equal.
  destruct (metadata_attachToHubspot md); simpl;
    by rewrite !bool_decide_true by done.
Qed.


(** C10.  When the three adapters succeed but the summary file cannot
    be written, the failure is swallowed.  The job has asked
    [fs.writeFile] for the summary file, and the turn in which that
    write is rejected leaves the files as they were; the summary step
    is still [completed], the summary text is recorded, no error is
    recorded, and [process()] resolves with [status] [completed]. *)
Theorem summary_save_failure_swallowed m :
  adapters_succeed dirname env id file md raw out →
  answer env _ summary_write = rejected m →
  ∃ o' s',
    run env l (process dirname) (new_AudioProcessor id file md) s =
      (returned (mkProcessResult (JS.trim raw) (JS.trim out) md), o', s') ∧
    written_files l s' =
      written_files l s ++
      [(transcript_path, JS.trim raw); (summary_path, JS.trim out)] ∧
    (∀ σ t i k,
       disk (shared (take_turn dirname t
         (Complete i (mkTask l _ summary_write k)
                   (answer env _ summary_write)) σ)) = disk (shared σ)) ∧
    step_of o' "summary" = Some completed ∧
    summary (results o') = Some (JS.trim out) ∧
    this_error o' = None ∧
    status o' = completed.
Proof.
  intros Hok Hrej.
  destruct (run_success Hok)
    as (o' & s' & Hrun & Hst & _ & _ & Hsum & _ & Hres & Herr & Hiss).
  exists o', s'. rewrite Hres. split_and!; try done.
  - by apply written_files_success.
  - intros σ t i k. rewrite completion_settles.
    cbn [task_event]. by rewrite Hrej.
Qed.

End Success.




Lemma summary_save_failure_swallowed_witness :
  ∃ o' s',
    run (scripted summaries_read_only) 0 (process "/srv/app")
        (new_AudioProcessor "job-1" "uploads/u_meeting.m4a" acme) nothing_shared =
      (returned (mkProcessResult "HELLO" "SUMMARY TEXT" acme), o', s') ∧
    written_files 0 s' =
      [("transcripts/transcript_2024-05-06T07-08-09_Acme---Co_123.txt", "HELLO");
       ("summaries/summary_2024-05-06T07-08-09_Acme---Co_123.txt", "SUMMARY TEXT")] ∧
    step_of o' "summary" = Some completed ∧
    summary (results o') = Some "SUMMARY TEXT" ∧
    this_error o' = None ∧
    status o' = completed.
Proof.
  destruct (summary_save_failure_swallowed "/srv/app" (scripted summaries_read_only) 0
           "job-1" "uploads/u_meeting.m4a" acme nothing_shared "HELLO" "SUMMARY TEXT"
           "EACCES")
    as (o' & s' & Hrun & Hfiles & _ & Hstep & Hsum & Herr & Hst).
  - repeat split; try reflexivity; [by eexists | discriminate].
  - reflexivity.
  - by exists o', s'.
Defined.
(** ** C3: cleanup of the converted audio *)

Section Cleanup.

Context (dirname : string) (env : Oracle) (l : loc).
Context (id file : string) (md : Metadata) (s : Shared).

Local Abbreviation wav := (wavOutputPath id).

(** On the path that ends in [completed] the converted audio is
    unlinked, last of all, and what [unlink] answers changes neither
    the outcome nor the job record. *)
Lemma cleanup_after_success raw out :
  adapters_succeed dirname env id file md raw out →
  ∃ o' s',
    run env l (process dirname) (new_AudioProcessor id file md) s =
      (returned (mkProcessResult (JS.trim raw) (JS.trim out) md), o', s') ∧
    status o' = completed ∧
    last (issued s') = Some (l, event_of (fs_unlink wav)).
Proof.
  intros Hok.
  destruct (run_success dirname env l id file md s raw out Hok)
    as (o' & s' & Hrun & Hst & _ & _ & _ & _ & _ & _ & Hiss).
  exists o', s'. split_and!; try done.
  rewrite Hiss, !app_assoc. apply last_snoc.
Qed.

(** C3 fails on the code.  When the conversion succeeds and
    whisper-cli then fails, [process()] rejects without calling
    [cleanup()]: the job ends in [error], [results.wavFile] still names
    the converted audio, and no [unlink] has been issued for it. *)
Theorem cleanup_skipped_after_failed_transcription :
  conversion_succeeds env id file →
  exit_zero (answer env _ (whisper_spawn dirname wav)) = false →
  ∃ m o' s',
    run env l (process dirname) (new_AudioProcessor id file md) s =
      (thrown m, o', s') ∧
    status o' = error ∧
    wavFile (results o') = Some wav ∧
    issued s' = issued s ++
      [(l, event_of (ffmpeg_spawn file wav));
       (l, event_of (whisper_spawn dirname wav))] ∧
    issued_by l (is_unlink_of wav) s' = issued_by l (is_unlink_of wav) s.
Proof.
  intros Hc Hw.
  destruct (run_whisper_fails dirname env l id file md s Hc Hw) as (m & data & Hrun).
  eexists _, _, _. split; [exact Hrun|].
  split_and!; try (by read_field).
  - repeat first [rewrite issued_awaited | rewrite issued_jobs_set].
    by rewrite <- !app_assoc.
  - rewrite !issued_by_jobs_set, !issued_by_awaited, !issued_by_jobs_set,
      !issued_by_awaited, !issued_by_jobs_set.
    rewrite !andb_false_r. lia.
Qed.

End Cleanup.

Lemma cleanup_skipped_witness :
  ∃ m o' s',
    run (scripted whisper_exits_1) 0 (process "/srv/app")
        (new_AudioProcessor "job-1" "uploads/u_meeting.m4a" acme) nothing_shared =
      (thrown m, o', s') ∧
    status o' = error ∧
    wavFile (results o') = Some "temp/job-1.wav" ∧
    issued s' =
      [(0, event_of (ffmpeg_spawn "uploads/u_meeting.m4a" "temp/job-1.wav"));
       (0, event_of (whisper_spawn "/srv/app" "temp/job-1.wav"))] ∧
    issued_by 0 (is_unlink_of "temp/job-1.wav") s' = 0.
Proof.
  apply (cleanup_skipped_after_failed_transcription "/srv/app"
           (scripted whisper_exits_1) 0 "job-1" "uploads/u_meeting.m4a" acme
           nothing_shared); reflexivity.
Defined.

(** ** C6: how the summary step ends *)

(** A server that has stopped takes no further turn: no status query is
    answered any more. *)
Lemma stopped_server_takes_no_turn dirname σ m tn σ' :
  exited σ = Some m → ¬ step dirname σ tn σ'.
Proof. intros Hex Hstep. destruct Hstep as [σ0 t tn0 [Hup _]]. congruence. Qed.

Section Summary.

Context (dirname : string) (env : Oracle) (l : loc).
Context (id file : string) (md : Metadata) (s : Shared) (raw : string).

Local Abbreviation ollama := (ollama_spawn (legalPrompt (JS.trim raw))).
Local Abbreviation outcome :=
  ((run env l (process dirname) (new_AudioProcessor id file md) s).1.1).
Local Abbreviation final :=
  ((run env l (process dirname) (new_AudioProcessor id file md) s).1.2).

Lemma summary_succeeds_dec :
  stdin_error (answer env _ ollama) = None →
  (∃ out, summary_succeeds env raw out) ∨ (∀ out, ¬ summary_succeeds env raw out).
Proof.
  unfold summary_succeeds.
  destruct (answer env PipedResult ollama) as [[code out err|m] sin] eqn:Ho;
    simpl; intros ->.
  - destruct (decide (code = Some 0%Z)) as [->|Hcode].
    + destruct (decide (JS.trim out = "")) as [Hout|Hout].
      * right. intros out' [[err' [= <- _]] Hne]. done.
      * left. exists out. split; [by exists err|done].
    + right. intros out' [[err' [= ? _]] _]. done.
  - right. by intros out' [[err' ?] _].
Qed.

(** C6 holds of the code when the prompt is delivered to ollama, and
    fails on it when the prompt is not.  After the conversion and the
    transcription have succeeded:

    - when the prompt is delivered, the summary step ends [completed]
      exactly when ollama exits with status zero and its output is
      not empty once trimmed, and in every other case (a status that
      is not zero, a signal, a failed launch, empty or blank output)
      the step ends [error] and the job halts with [status] [error];

    - when the prompt cannot be written to the standard input of
      ollama, as when the child has gone before it read the prompt,
      the server stops on the stream error, for which there is no
      listener: the summary step is left [processing] and [status]
      [processing], whatever the exit status of the child. *)
Theorem summary_stage_outcome :
  conversion_succeeds env id file →
  transcription_succeeds dirname env id md raw →
  (stdin_error (answer env _ ollama) = None →
   (step_of final "summary" = Some completed ↔ ∃ out, summary_succeeds env raw out) ∧
   ((∀ out, ¬ summary_succeeds env raw out) →
    step_of final "summary" = Some error ∧ status final = error ∧
    is_Some (this_error final) ∧ ∃ m, outcome = thrown m)) ∧
  (∀ m, stdin_error (answer env _ ollama) = Some m →
   outcome = crashed m ∧
   step_of final "summary" = Some processing ∧ status final = processing).
Proof.
  intros Hc Ht. split.
  - intros Hin.
    assert ((∀ out, ¬ summary_succeeds env raw out) →
            step_of final "summary" = Some error ∧ status final = error ∧
            is_Some (this_error final) ∧ ∃ m, outcome = thrown m) as Hfail.
    { intros Hno.
      destruct (run_summary_fails dirname env l id file md s raw Hc Ht Hin Hno)
        as (m & data & Hrun).
      rewrite Hrun. split_and!; [by read_step|by read_field|by eexists|by eexists]. }
    split; [|done].
    destruct (summary_succeeds_dec Hin) as [[out Hs]|Hno].
    + split; [by eauto|]. intros _.
      assert (adapters_succeed dirname env id file md raw out) as Hok by done.
      rewrite (run_three_stages _ _ _ _ _ _ _ _ _ Hok).
      destruct (metadata_attachToHubspot md); by read_step.
    + destruct (Hfail Hno) as (Herr & _). rewrite Herr. split; [done|].
      intros [out Hs]. by destruct (Hno out).
  - intros m Hin.
    rewrite (run_summary_crashes dirname env l id file md s raw m Hc Ht Hin).
    split_and!; [done|by read_step|by read_field].
Qed.

End Summary.

Lemma summary_stage_witness :
  (step_of
     (run (scripted (all_succeed "HELLO" "SUMMARY TEXT")) 0 (process "/srv/app")
        (new_AudioProcessor "job-1" "uploads/u_meeting.m4a" acme) nothing_shared).1.2
     "summary" = Some completed ↔
   ∃ out, summary_succeeds (scripted (all_succeed "HELLO" "SUMMARY TEXT")) "HELLO" out) ∧
  (let r := run (scripted blank_summary) 0 (process "/srv/app")
              (new_AudioProcessor "job-1" "uploads/u_meeting.m4a" acme)
              nothing_shared in
   step_of r.1.2 "summary" = Some error ∧ status r.1.2 = error ∧
   is_Some (this_error r.1.2) ∧ ∃ m, r.1.1 = thrown m) ∧
  (let r := run (scripted ollama_gone) 0 (process "/srv/app")
              (new_AudioProcessor "job-1" "uploads/u_meeting.m4a" acme)
              nothing_shared in
   r.1.1 = crashed "write EPIPE" ∧
   step_of r.1.2 "summary" = Some processing ∧ status r.1.2 = processing).
Proof.
  split_and!.
  - apply (summary_stage_outcome "/srv/app" (scripted (all_succeed "HELLO" "SUMMARY TEXT"))
             0 "job-1" "uploads/u_meeting.m4a" acme nothing_shared "HELLO").
    + reflexivity.
    + repeat split; reflexivity.
    + reflexivity.
  - apply (summary_stage_outcome "/srv/app" (scripted blank_summary)
             0 "job-1" "uploads/u_meeting.m4a" acme nothing_shared "HELLO").
    + reflexivity.
    + repeat split; reflexivity.
    + reflexivity.
    + intros out [[err [= <- _]] Hne]. by apply Hne.
  - apply (summary_stage_outcome "/srv/app" (scripted ollama_gone)
             0 "job-1" "uploads/u_meeting.m4a" acme nothing_shared "HELLO").
    + reflexivity.
    + repeat split; reflexivity.
    + reflexivity.
Defined.

(** The same on the event loop: a job is submitted, its operations
    complete one by one, and ollama goes before it has read the prompt.
    The server has stopped, with the summary step of the job still
    [processing], and takes no further turn. *)
Lemma ollama_gone_stops_server :
  exited server_after_ollama_gone = Some "write EPIPE" ∧
  (∃ job, heap server_after_ollama_gone !! 0 = Some job ∧
          step_of job "summary" = Some processing ∧ status job = processing) ∧
  sent server_after_ollama_gone = [json_started "job-1"] ∧
  ∀ tn σ', ¬ step "/srv/app" server_after_ollama_gone tn σ'.
Proof.
  split_and!.
  - by vm_compute.
  - eexists. split; [by vm_compute|]. by vm_compute.
  - by vm_compute.
  - intros tn σ'. by apply (stopped_server_takes_no_turn _ _ "write EPIPE").
Qed.

(** ** C5: the post-hoc attach handler *)

Lemma delete_snoc {A : Type} (xs : list A) (x : A) : delete (length xs) (xs ++ [x]) = xs.
Proof. induction xs as [|y xs IH]; simpl; [done|by rewrite IH]. Qed.

Section PostHocAttach.

Context (σ : Server) (id : string) (l : loc) (job : AudioProcessor).
Hypothesis registered : processingJobs (shared σ) !! id = Some l.
Hypothesis stored : heap σ !! l = Some job.

Lemma attach_refused :
  status job ≠ completed →
  post_hubspot_attach id σ = respond (json_error 400 "Processing not completed") σ.
Proof.
  intros Hst. unfold post_hubspot_attach. rewrite registered, stored.
  by rewrite bool_decide_true.
Qed.

Lemma attach_started :
  status job = completed →
  ∃ k,
    post_hubspot_attach id σ =
      mkServer (<[l := put_step "hubspot" processing no_data job]> (heap σ))
               (issue l (hubspot_api 1000) (jobs_set (processId job) l (shared σ)))
               (tasks σ ++ [mkTask l unit (hubspot_api 1000) k])
               (sent σ) (exited σ) ∧
    ∀ (b : unit) t,
      let σ2 := resume (length (tasks σ)) (mkTask l unit (hubspot_api 1000) k)
                  b (set_clock t (post_hubspot_attach id σ)) in
      heap σ2 !! l = Some (attached job) ∧
      tasks σ2 = tasks σ ∧
      sent σ2 = sent σ ++ [json_attached] ∧
      exited σ2 = exited σ ∧
      issued (shared σ2) = issued (shared σ) ++ [(l, event_of (hubspot_api 1000))].
Proof.
  intros Hst.
  assert (l < length (heap σ)) as Hlt by by eapply lookup_lt_Some.
  unfold post_hubspot_attach. rewrite registered, stored.
  rewrite bool_decide_false by (intros Hne; by apply Hne).
  unfold start. rewrite stored. simpl. rewrite app_nil_r.
  eexists. split; [reflexivity|].
  intros b t. unfold resume, start. simpl.
  rewrite list_lookup_insert_eq by done.
  destruct b. simpl. rewrite delete_snoc, !app_nil_r.
  rewrite list_lookup_insert_eq by by rewrite length_insert.
  done.
Qed.

(** C5.  For a job that is registered and whose [status] is not
    [completed], the attach handler only answers with the
    precondition-failed signal (HTTP 400): the heap, the registry, the
    pending tasks and the issued operations are what they were, so the
    attach adapter was not invoked and the attach step is untouched.
    For a completed job the handler invokes the attach adapter: the
    step becomes [processing], the attach call is issued, and when the
    call completes the step becomes [completed] and the reply is
    sent. *)
Theorem attach_requires_completed_job :
  (status job ≠ completed →
   let σ1 := post_hubspot_attach id σ in
   sent σ1 = sent σ ++ [json_error 400 "Processing not completed"] ∧
   heap σ1 = heap σ ∧ shared σ1 = shared σ ∧ tasks σ1 = tasks σ) ∧
  (status job = completed →
   let σ1 := post_hubspot_attach id σ in
   ∃ task : unit → Prog (option Reply),
     heap σ1 !! l = Some (put_step "hubspot" processing no_data job) ∧
     issued (shared σ1) = issued (shared σ) ++ [(l, event_of (hubspot_api 1000))] ∧
     tasks σ1 = tasks σ ++ [mkTask l unit (hubspot_api 1000) task] ∧
     ∀ (b : unit) t,
       let σ2 := resume (length (tasks σ))
                   (mkTask l unit (hubspot_api 1000) task) b
                   (set_clock t σ1) in
       ∃ job',
         heap σ2 !! l = Some job' ∧
         step_of job' "hubspot" = Some completed ∧
         status job' = completed ∧
         sent σ2 = sent σ ++ [json_attached]).
Proof.
  split.
  - intros Hst. rewrite (attach_refused Hst). done.
  - intros Hst. destruct (attach_started Hst) as (k & Hσ1 & Hdone).
    exists k. cbv zeta. rewrite Hσ1. simpl.
    assert (l < length (heap σ)) as Hlt by by eapply lookup_lt_Some.
    split_and!; try done.
    + by rewrite list_lookup_insert_eq.
    + intros b t. rewrite <- Hσ1. destruct (Hdone b t) as (Hheap & _ & Hsent & _).
      eexists. split; [exact Hheap|]. rewrite Hsent.
      split_and!; try done; by read_step.
Qed.

End PostHocAttach.

Lemma attach_requires_completed_job_witness :
  (let σ1 := post_hubspot_attach "job-1" server_with_converting_job in
   sent σ1 = [json_error 400 "Processing not completed"] ∧
   heap σ1 = [converting_job] ∧
   shared σ1 = shared server_with_converting_job ∧
   tasks σ1 = []) ∧
  (let σ1 := post_hubspot_attach "job-1" server_with_completed_job in
   ∃ task : unit → Prog (option Reply),
     heap σ1 !! 0 = Some (put_step "hubspot" processing no_data completed_job) ∧
     issued (shared σ1) = [(0, event_of (hubspot_api 1000))] ∧
     tasks σ1 = [mkTask 0 unit (hubspot_api 1000) task] ∧
     ∀ (b : unit) t,
       let σ2 := resume 0 (mkTask 0 unit (hubspot_api 1000) task) b
                   (set_clock t σ1) in
       ∃ job',
         heap σ2 !! 0 = Some job' ∧
         step_of job' "hubspot" = Some completed ∧
         status job' = completed ∧
         sent σ2 = [json_attached]).
Proof.
  split.
  - apply (attach_requires_completed_job server_with_converting_job "job-1" 0
             converting_job); [reflexivity|reflexivity|discriminate].
  - apply (attach_requires_completed_job server_with_completed_job "job-1" 0
             completed_job); reflexivity.
Defined.

(** ** C7: the attach step and the status of the job *)


Section AttachStage.

Context (dirname : string) (env : Oracle) (l : loc).
Context (id file : string) (md : Metadata) (s : Shared) (raw out : string).
Context (σ : Server) (jid : string) (jl : loc) (job : AudioProcessor).


End AttachStage.


(** ** C4: the attach step of a submitted job *)

Section SubmittedAttach.

Context (dirname : string) (env : Oracle) (l : loc).
Context (req : Request) (file : UploadedFile) (iso id : string) (s : Shared).
Context (raw out : string).

Local Abbreviation md := (request_metadata (req_body req) file iso).

(** C4 fails on the code for submissions that ask for attach.  The
    metadata that the submission handler builds never carries the
    attach flag, whatever fields the form has: when the three adapters
    succeed the job ends [completed] with the attach step still
    [pending], and the attach adapter has not been invoked. *)
Theorem submission_never_attaches :
  adapters_succeed dirname env id (file_path file) md raw out →
  metadata_attachToHubspot md = false ∧
  ∃ o' s',
    run env l (process dirname) (new_AudioProcessor id (file_path file) md) s =
      (returned (mkProcessResult (JS.trim raw) (JS.trim out) md), o', s') ∧
    status o' = completed ∧
    step_of o' "hubspot" = Some pending ∧
    issued_by l is_hubspot_call s' = issued_by l is_hubspot_call s.
Proof.
  intros Hok. split; [done|].
  destruct (run_success dirname env l id (file_path file) md s raw out Hok)
    as (o' & s' & Hrun & Hst & _ & _ & _ & Hhub & _ & _ & Hiss).
  exists o', s'. split_and!; try done.
  rewrite (issued_by_issued _ _ _ _ _ Hiss). simpl.
  rewrite !andb_false_r. simpl. lia.
Qed.

End SubmittedAttach.

Lemma submission_never_attaches_witness :
  let md := request_metadata (req_body form_asking_for_attach)
              (mkUploadedFile "uploads/u_meeting.m4a" "meeting.m4a")
              "2024-05-06T07:00:00.000Z" in
  req_body form_asking_for_attach !! "attachToHubspot" = Some "true" ∧
  metadata_attachToHubspot md = false ∧
  ∃ o' s',
    run (scripted (all_succeed "HELLO" "SUMMARY TEXT")) 0 (process "/srv/app")
        (new_AudioProcessor "job-1" "uploads/u_meeting.m4a" md) nothing_shared =
      (returned (mkProcessResult "HELLO" "SUMMARY TEXT" md), o', s') ∧
    status o' = completed ∧
    step_of o' "hubspot" = Some pending ∧
    issued_by 0 is_hubspot_call s' = 0.
Proof.
  split; [reflexivity|].
  apply (submission_never_attaches "/srv/app"
           (scripted (all_succeed "HELLO" "SUMMARY TEXT")) 0
           form_asking_for_attach
           (mkUploadedFile "uploads/u_meeting.m4a" "meeting.m4a")
           "2024-05-06T07:00:00.000Z" "job-1" nothing_shared "HELLO" "SUMMARY TEXT").
  repeat split; try reflexivity; [by eexists|discriminate].
Defined.

(** A job record that carries the attach flag does get its attach step
    completed by the pipeline. *)
Lemma flagged_job_is_attached dirname env l id file md s raw out :
  adapters_succeed dirname env id file md raw out →
  metadata_attachToHubspot md = true →
  ∃ o' s',
    run env l (process dirname) (new_AudioProcessor id file md) s =
      (returned (mkProcessResult (JS.trim raw) (JS.trim out) md), o', s') ∧
    status o' = completed ∧
    step_of o' "hubspot" = Some completed.
Proof.
  intros Hok Hflag.
  destruct (run_success dirname env l id file md s raw out Hok)
    as (o' & s' & Hrun & Hst & _ & _ & _ & Hhub & _).
  rewrite Hflag in Hhub. by exists o', s'.
Qed.

(** ** C9: artifact paths of different jobs *)

Lemma length_append (a b : string) :
  String.length (a +:+ b) = (String.length a + String.length b)%nat.
Proof.
  induction a as [|x a IH]; [done|].
  change (S (String.length (a +:+ b)) = S (String.length a + String.length b)).
  by rewrite IH.
Qed.

Lemma append_inj_length (a b x y : string) :
  String.length a = String.length b → a +:+ x = b +:+ y → a = b ∧ x = y.
Proof.
  revert b. induction a as [|c a IH]; intros [|d b] Hlen Heq; try done.
  change (String c (a +:+ x) = String d (b +:+ y)) in Heq.
  injection Heq as -> Heq. simpl in Hlen.
  destruct (IH b) as [-> ->]; [lia|done|done].
Qed.

Lemma append_cancel_r (a b c : string) : a +:+ c = b +:+ c → a = b.
Proof.
  intros Heq. apply (append_inj_length a b c c); [|done].
  apply (f_equal String.length) in Heq. rewrite !length_append in Heq. lia.
Qed.

Lemma length_map_chars f s : String.length (JS.map_chars f s) = String.length s.
Proof. induction s as [|c s IH]; simpl; [done|by rewrite IH]. Qed.

Lemma length_slice0 n s :
  (n ≤ String.length s)%nat → String.length (JS.slice0 n s) = n.
Proof.
  revert s. induction n as [|n IH]; intros [|c s] Hlen; simpl in *; try done; try lia.
  rewrite IH; [done|lia].
Qed.

Lemma length_timestamp_of iso :
  (19 ≤ String.length iso)%nat → String.length (timestamp_of iso) = 19%nat.
Proof.
  intros. unfold timestamp_of, JS.replace_colon_dot.
  by rewrite length_map_chars, length_slice0.
Qed.

Section DistinctPaths.

Context (id1 id2 : string) (md1 md2 : Metadata).
Context (transcribed_at1 summarized_at1 transcribed_at2 summarized_at2 : string).

(** C9, amended.  Two jobs with distinct identifiers convert into
    distinct transient files.  Their transcript files are distinct when
    the two transcripts are stamped in different seconds, and so are
    their summary files; the clock readings are ISO strings of at
    least nineteen characters. *)
Theorem artifact_paths_distinct :
  id1 ≠ id2 →
  (19 ≤ String.length transcribed_at1)%nat →
  (19 ≤ String.length transcribed_at2)%nat →
  (19 ≤ String.length summarized_at1)%nat →
  (19 ≤ String.length summarized_at2)%nat →
  timestamp_of transcribed_at1 ≠ timestamp_of transcribed_at2 →
  timestamp_of summarized_at1 ≠ timestamp_of summarized_at2 →
  wavOutputPath id1 ≠ wavOutputPath id2 ∧
  transcriptSavePath transcribed_at1 md1 ≠ transcriptSavePath transcribed_at2 md2 ∧
  summarySavePath summarized_at1 md1 ≠ summarySavePath summarized_at2 md2.
Proof.
  intros Hid Ht1 Ht2 Hs1 Hs2 Ht Hs. split_and!.
  - unfold wavOutputPath, JS.path_join. intros Heq.
    apply (inj (String.append "temp")) in Heq.
    apply (inj (String.append "/")) in Heq.
    by apply append_cancel_r in Heq.
  - unfold transcriptSavePath, transcriptFileName, JS.path_join. intros Heq.
    apply (inj (String.append "transcripts")) in Heq.
    apply (inj (String.append "/")) in Heq.
    apply (inj (String.append "transcript_")) in Heq.
    apply append_inj_length in Heq as [? _]; [done|].
    by rewrite !length_timestamp_of.
  - unfold summarySavePath, summaryFileName, JS.path_join. intros Heq.
    apply (inj (String.append "summaries")) in Heq.
    apply (inj (String.append "/")) in Heq.
    apply (inj (String.append "summary_")) in Heq.
    apply append_inj_length in Heq as [? _]; [done|].
    by rewrite !length_timestamp_of.
Qed.

End DistinctPaths.

(** Two jobs stamped in the same second for the same client and case
    share their transcript path and their summary path. *)
Lemma same_second_same_path iso1 iso2 md1 md2 :
  timestamp_of iso1 = timestamp_of iso2 →
  clientName md1 = clientName md2 → caseNumber md1 = caseNumber md2 →
  transcriptSavePath iso1 md1 = transcriptSavePath iso2 md2 ∧
  summarySavePath iso1 md1 = summarySavePath iso2 md2.
Proof.
  intros Ht Hc Hn.
  unfold transcriptSavePath, summarySavePath, transcriptFileName, summaryFileName.
  by rewrite Ht, Hc, Hn.
Qed.

(** C9 as stated fails: two jobs for the same client and case whose
    transcripts are stamped in the same second write the same transcript
    file. *)
Lemma distinct_artifacts_counterexample :
  ¬ distinct_artifacts_as_stated "/srv/app"
      (scripted (all_succeed "HELLO" "SUMMARY TEXT"))
      (scripted (all_succeed "GOOD MORNING" "ANOTHER SUMMARY"))
      "job-1" "uploads/u_meeting.m4a" acme
      "job-2" "uploads/v_hearing.m4a" acme.
Proof.
  intros Hclaim.
  apply (Hclaim ltac:(discriminate)
           "transcripts/transcript_2024-05-06T07-08-09_Acme---Co_123.txt").
  - vm_compute. set_solver.
  - vm_compute. set_solver.
Qed.

Lemma artifact_paths_distinct_witness :
  wavOutputPath "job-1" ≠ wavOutputPath "job-2" ∧
  transcriptSavePath "2024-05-06T07:08:09.123Z" acme
    ≠ transcriptSavePath "2024-05-06T07:08:10.001Z" acme ∧
  summarySavePath "2024-05-06T07:09:30.500Z" acme
    ≠ summarySavePath "2024-05-06T07:09:31.000Z" acme.
Proof.
  apply (artifact_paths_distinct "job-1" "job-2" acme acme
           "2024-05-06T07:08:09.123Z" "2024-05-06T07:09:30.500Z"
           "2024-05-06T07:08:10.001Z" "2024-05-06T07:09:31.000Z");
    first [discriminate | simpl; lia].
Defined.

(** ** Identifiers drawn by [uuidv4] *)

Lemma to_int32_draw u :
  (0 <= u)%Q → (u < 1)%Q → (0 ≤ to_int32 (u * 16) < 16)%Z.
Proof.
  intros H0 H1. unfold to_int32.
  assert (0 <= u * 16)%Q as Hnn.
  { rewrite <- (Qmult_0_l 16). apply Qmult_le_compat_r; [done|discriminate]. }
  rewrite (proj2 (Qle_bool_iff 0 (u * 16)) Hnn).
  assert (0 ≤ Qfloor (u * 16))%Z as Hlo.
  { change 0%Z with (Qfloor 0). by apply Qfloor_resp_le. }
  assert (Qfloor (u * 16) < 16)%Z as Hhi.
  { rewrite Zlt_Qlt. eapply Qle_lt_trans; [apply Qfloor_le|].
    change (inject_Z 16) with (1 * 16)%Q.
    apply Qmult_lt_compat_r; [reflexivity|done]. }
  rewrite Z.mod_small by lia. lia.
Qed.

Lemma toString16_digit v :
  (0 ≤ v < 16)%Z → Number_toString16 v = String (hex_digit v) "".
Proof.
  intros Hv. unfold Number_toString16.
  rewrite (proj2 (Z.ltb_ge v 0)) by lia. cbn [hex_digits].
  rewrite Z.mod_small by lia. by rewrite (proj2 (Z.ltb_lt v 16)) by lia.
Qed.

Lemma hex_digit_is_hex v : (0 ≤ v < 16)%Z → is_hex_digit (hex_digit v) = true.
Proof.
  intros Hv.
  assert (v ∈ (seqZ 0 16)) as Hin by (apply elem_of_seqZ; lia).
  vm_compute in Hin. set_unfold in Hin. by destruct_or!; subst.
Qed.

Lemma hex_digit_is_variant v : (8 ≤ v < 12)%Z → is_variant_digit (hex_digit v) = true.
Proof.
  intros Hv.
  assert (v ∈ (seqZ 8 4)) as Hin by (apply elem_of_seqZ; lia).
  vm_compute in Hin. set_unfold in Hin. by destruct_or!; subst.
Qed.

Lemma hex_digit_inj v w :
  (0 ≤ v < 16)%Z → (0 ≤ w < 16)%Z → hex_digit v = hex_digit w → v = w.
Proof.
  intros Hv Hw.
  assert (v ∈ (seqZ 0 16)) as Hv' by (apply elem_of_seqZ; lia).
  assert (w ∈ (seqZ 0 16)) as Hw' by (apply elem_of_seqZ; lia).
  vm_compute in Hv', Hw'. set_unfold in Hv'. set_unfold in Hw'.
  destruct_or!; subst; done.
Qed.

Lemma variant_bits r : (8 ≤ Z.lor (Z.land r 3) 8 < 12)%Z.
Proof.
  assert (0 ≤ Z.land r 3 < 4)%Z as Hlow.
  { change 3%Z with (Z.ones 2). rewrite Z.land_ones by lia. apply Z.mod_pos_bound. lia. }
  generalize dependent (Z.land r 3). intros m Hm.
  assert (m ∈ seqZ 0 4) as Hin by (apply elem_of_seqZ; lia).
  vm_compute in Hin. set_unfold in Hin. destruct_or!; subst; by vm_compute.
Qed.

(** What the callback returns is one digit. *)
Lemma uuid_replacer_digit i c u :
  (0 <= u)%Q → (u < 1)%Q →
  c = (if bool_decide (i = 15%nat) then "y" else "x")%char →
  uuid_replacer c u = String (hex_digit (uuid_nibble i u)) "" ∧
  (0 ≤ uuid_nibble i u < 16)%Z ∧
  (i = 15%nat → (8 ≤ uuid_nibble i u < 12)%Z).
Proof.
  intros H0 H1 Hc. pose proof (to_int32_draw u H0 H1) as Hr.
  pose proof (variant_bits (to_int32 (u * 16))) as Hv.
  unfold uuid_replacer, uuid_nibble.
  destruct (bool_decide (i = 15%nat)) eqn:Hi; subst c.
  - replace (bool_decide ("y"%char = "x"%char)) with false by (by vm_compute).
    split_and!; try lia. apply toString16_digit. lia.
  - replace (bool_decide ("x"%char = "x"%char)) with true by (by vm_compute).
    apply bool_decide_eq_false in Hi.
    split_and!; try lia; try (by intros ?). by apply toString16_digit.
Qed.

Lemma replace_xy_digits t random i :
  unit_interval random → y_is_draw_15 t i = true →
  replace_xy t random i = digits_xy t (λ j, uuid_nibble j (random j)) i.
Proof.
  intros Hr. revert i. induction t as [|c t IH]; intros i Hy; [done|].
  cbn [replace_xy digits_xy y_is_draw_15] in *.
  destruct (bool_decide (c = "x"%char)) eqn:Hx.
  - apply bool_decide_eq_true in Hx as ->. cbn [orb].
    apply andb_true_iff in Hy as [Hi Hy]. apply negb_true_iff, Nat.eqb_neq in Hi.
    destruct (uuid_replacer_digit i "x" (random i)) as (-> & _); [apply Hr..| |].
    { by rewrite bool_decide_false. }
    by rewrite <- IH.
  - destruct (bool_decide (c = "y"%char)) eqn:Hc; cbn [orb].
    + apply bool_decide_eq_true in Hc as ->.
      apply andb_true_iff in Hy as [Hi Hy]. apply Nat.eqb_eq in Hi.
      destruct (uuid_replacer_digit i "y" (random i)) as (-> & _); [apply Hr..| |].
      { by rewrite bool_decide_true. }
      by rewrite <- IH.
    + by rewrite <- IH.
Qed.

Lemma uuidv4_digits random :
  unit_interval random →
  uuidv4 random = digits_xy uuid_template (λ j, uuid_nibble j (random j)) 0.
Proof. intros Hr. by apply replace_xy_digits. Qed.

Lemma uuid_nibble_range random i :
  unit_interval random →
  (0 ≤ uuid_nibble i (random i) < 16)%Z ∧
  (i = 15%nat → (8 ≤ uuid_nibble i (random i) < 12)%Z).
Proof.
  intros Hr.
  destruct (uuid_replacer_digit i _ (random i) (proj1 (Hr i)) (proj2 (Hr i)) eq_refl)
    as (_ & ? & ?).
  done.
Qed.

Lemma digits_xy_fits t n i :
  (∀ j, (0 ≤ n j < 16)%Z) → (∀ j, j = 15%nat → (8 ≤ n j < 12)%Z) →
  y_is_draw_15 t i = true → fits t (digits_xy t n i) = true.
Proof.
  intros Hn H15. revert i. induction t as [|c t IH]; intros i Hy; [done|].
  cbn [fits digits_xy y_is_draw_15] in *.
  destruct (bool_decide (c = "x"%char)) eqn:Hx; cbn [orb].
  - apply andb_true_iff in Hy as [_ Hy].
    rewrite hex_digit_is_hex by done. by rewrite IH.
  - destruct (bool_decide (c = "y"%char)) eqn:Hc; cbn [orb].
    + apply andb_true_iff in Hy as [Hi Hy]. apply Nat.eqb_eq in Hi.
      rewrite hex_digit_is_variant by by apply H15. by rewrite IH.
    + rewrite bool_decide_true by done. by rewrite IH.
Qed.

Lemma fits_length t s : fits t s = true → String.length s = String.length t.
Proof.
  revert s. induction t as [|c t IH]; intros [|d s] Hf; simpl in *; try done.
  apply andb_true_iff in Hf as [_ Hf]. by rewrite (IH s).
Qed.

Lemma digits_xy_inj t n m i :
  (∀ j, (0 ≤ n j < 16)%Z) → (∀ j, (0 ≤ m j < 16)%Z) →
  digits_xy t n i = digits_xy t m i ↔
  ∀ j, (i ≤ j < i + count_xy t)%nat → n j = m j.
Proof.
  intros Hn Hm. revert i. induction t as [|c t IH]; intros i.
  - simpl. split; [intros _ j ?; lia|done].
  - cbn [digits_xy count_xy].
    destruct (bool_decide (c = "x"%char) || bool_decide (c = "y"%char)).
    + split.
      * intros [= Hd Ht]. apply hex_digit_inj in Hd; [|done..].
        intros j Hj. destruct (decide (j = i)) as [->|Hne]; [done|].
        apply (proj1 (IH (S i)) Ht). lia.
      * intros Hall. rewrite (Hall i) by lia. f_equal.
        apply IH. intros j Hj. apply Hall. lia.
    + split.
      * intros [= Ht]. by apply IH.
      * intros Hall. f_equal. by apply IH.
Qed.


Lemma uuidv4_fits random :
  unit_interval random → fits uuid_template (uuidv4 random) = true.
Proof.
  intros Hr. rewrite uuidv4_digits by done. apply digits_xy_fits; [| |done].
  - intros j. by apply uuid_nibble_range.
  - intros j. by apply uuid_nibble_range.
Qed.

(** Every identifier that [uuidv4] returns has 36 characters in the
    shape of its template: hyphens after the 8th, 13th, 18th and 23rd
    character, the digit [4] in front of the third group, one of
    [8 9 a b] in front of the fourth, and lower-case hexadecimal digits
    everywhere else. *)
Theorem uuidv4_shape random :
  unit_interval random →
  String.length (uuidv4 random) = 36%nat ∧
  fits uuid_template (uuidv4 random) = true.
Proof.
  intros Hr. pose proof (uuidv4_fits random Hr) as Hfits.
  split; [|done]. by rewrite (fits_length _ _ Hfits).
Qed.

Lemma uuidv4_shape_witness :
  String.length (uuidv4 (λ i, if Nat.even i then (5 # 8)%Q else (1 # 32)%Q)) = 36%nat ∧
  fits uuid_template (uuidv4 (λ i, if Nat.even i then (5 # 8)%Q else (1 # 32)%Q)) = true.
Proof.
  apply (uuidv4_shape (λ i, if Nat.even i then (5 # 8)%Q else (1 # 32)%Q)).
  intros i. destruct (Nat.even i); split; by vm_compute.
Defined.

(** Two calls of [uuidv4] return the same identifier exactly when
    their 31 draws leave the same digits: the identifier keeps four bits
    of every draw, and two of the sixteenth. *)
Theorem uuidv4_equal_iff random1 random2 :
  unit_interval random1 → unit_interval random2 →
  uuidv4 random1 = uuidv4 random2 ↔
  ∀ i, (i < 31)%nat → uuid_nibble i (random1 i) = uuid_nibble i (random2 i).
Proof.
  intros H1 H2. rewrite !uuidv4_digits by done.
  rewrite digits_xy_inj.
  - change (count_xy uuid_template) with 31%nat.
    split; intros H i Hi; apply H; lia.
  - intros j. by apply uuid_nibble_range.
  - intros j. by apply uuid_nibble_range.
Qed.

Lemma uuidv4_equal_iff_witness :
  uuidv4 (λ _, (5 # 8)%Q)
    = uuidv4 (λ i, if Nat.eqb i 15 then (7 # 8)%Q else (21 # 32)%Q) ∧
  uuidv4 (λ _, (5 # 8)%Q) = "aaaaaaaa-aaaa-4aaa-aaaa-aaaaaaaaaaaa".
Proof.
  split; [|by vm_compute].
  apply (uuidv4_equal_iff (λ _, (5 # 8)%Q)
           (λ i, if Nat.eqb i 15 then (7 # 8)%Q else (21 # 32)%Q)).
  - intros i. split; by vm_compute.
  - intros i. destruct (Nat.eqb i 15); split; by vm_compute.
  - intros i _. destruct (decide (i = 15%nat)) as [->|Hne]; [by vm_compute|].
    rewrite (proj2 (Nat.eqb_neq _ _) Hne). unfold uuid_nibble.
    rewrite bool_decide_false by done. by vm_compute.
Defined.

Lemma storage_filename_unfold random name :
  storage_filename random name = uuidv4 random +:+ "_" +:+ name.
Proof. reflexivity. Qed.

Lemma uuidv4_length random1 random2 :
  unit_interval random1 → unit_interval random2 →
  String.length (uuidv4 random1) = String.length (uuidv4 random2).
Proof.
  intros H1 H2.
  by rewrite (fits_length _ _ (uuidv4_fits random1 H1)),
             (fits_length _ _ (uuidv4_fits random2 H2)).
Qed.

Lemma prefixed_name_inj (id1 id2 name1 name2 : string) :
  String.length id1 = String.length id2 →
  id1 +:+ "_" +:+ name1 = id2 +:+ "_" +:+ name2 →
  id1 = id2 ∧ name1 = name2.
Proof.
  intros Hlen Heq.
  destruct (append_inj_length id1 id2 ("_" +:+ name1) ("_" +:+ name2) Hlen Heq)
    as [Hid Hname].
  split; [exact Hid|].
  change (String "_" name1 = String "_" name2) in Hname.
  by injection Hname.
Qed.

(** The name under which an upload is stored determines both the
    identifier drawn for it and the name the client gave: two uploads
    are stored under the same name only if they drew the same identifier
    and carry the same original name. *)
Theorem storage_filename_inj random1 random2 name1 name2 :
  unit_interval random1 → unit_interval random2 →
  storage_filename random1 name1 = storage_filename random2 name2 →
  uuidv4 random1 = uuidv4 random2 ∧ name1 = name2.
Proof.
  intros H1 H2 Heq. rewrite !storage_filename_unfold in Heq.
  apply prefixed_name_inj; [|exact Heq]. by apply uuidv4_length.
Qed.

Lemma storage_filename_inj_witness :
  storage_filename (λ _, (5 # 8)%Q) "meeting.m4a"
    = "aaaaaaaa-aaaa-4aaa-aaaa-aaaaaaaaaaaa_meeting.m4a" ∧
  ∀ random name,
    unit_interval random →
    storage_filename random name = storage_filename (λ _, (5 # 8)%Q) "meeting.m4a" →
    uuidv4 random = "aaaaaaaa-aaaa-4aaa-aaaa-aaaaaaaaaaaa" ∧ name = "meeting.m4a".
Proof.
  split; [by vm_compute|].
  intros random name Hr Heq.
  destruct (storage_filename_inj random (λ _, (5 # 8)%Q) name "meeting.m4a")
    as [Hid Hname]; [exact Hr|intros i; split; by vm_compute|exact Heq|].
  split; [|exact Hname]. rewrite Hid. by vm_compute.
Defined.

(** ** A failed transcription *)

Section TranscriptionFails.

Context (dirname : string) (env : Oracle) (l : loc).
Context (id file : string) (md : Metadata) (s : Shared).

Local Abbreviation wav := (wavOutputPath id).
Local Abbreviation txt := (wav +:+ ".txt").
Local Abbreviation o0 := (new_AudioProcessor id file md).
Local Abbreviation transcript_path := (transcriptSavePath (transcript_iso env id) md).

Local Ltac object_simpl :=
  cbn [fst snd processId audioFile metadata status steps results this_error
       wavFile transcription summary set_status set_steps set_results
       set_error set_wavFile set_transcription set_summary put_step
       new_AudioProcessor];
  rewrite ?truthy_wavOutputPath.

(** When whisper-cli does not exit with zero, or cannot be launched,
    the job halts: [process()] rejects, [status] is [error] with the
    error recorded, the transcription step is [error], the summary
    and attach steps are still [pending], no transcription is
    recorded, ollama has not been started and no file was written. *)
Theorem transcription_failure_halts :
  conversion_succeeds env id file →
  exit_zero (answer env _ (whisper_spawn dirname wav)) = false →
  ∃ m o' s',
    run env l (process dirname) o0 s = (thrown m, o', s') ∧
    status o' = error ∧ this_error o' = Some m ∧
    step_of o' "conversion" = Some completed ∧
    step_of o' "transcription" = Some error ∧
    step_of o' "summary" = Some pending ∧
    step_of o' "hubspot" = Some pending ∧
    transcription (results o') = None ∧
    issued_by l (is_spawn_of "ollama") s' = issued_by l (is_spawn_of "ollama") s ∧
    written_files l s' = written_files l s.
Proof.
  intros Hc Hw.
  destruct (run_whisper_fails dirname env l id file md s Hc Hw) as (m & data & Hrun).
  eexists _, _, _. split; [exact Hrun|].
  split_and!; try (by read_step); try (by read_field).
  - repeat first [rewrite issued_by_jobs_set | rewrite issued_by_awaited].
    rewrite !andb_false_r. lia.
  - unfold written_files.
    repeat first [rewrite issued_awaited | rewrite issued_jobs_set].
    rewrite !omap_app. simpl. rewrite !bool_decide_true by done.
    by rewrite !app_nil_r.
Qed.

(** When whisper-cli exits with zero but the text file it should
    have left cannot be read, the job halts in the same way; the
    step records that the transcript file could not be read, and the
    job records the error of the file system. *)
Theorem transcript_read_failure_halts m :
  conversion_succeeds env id file →
  exit_zero (answer env _ (whisper_spawn dirname wav)) = true →
  answer env _ (fs_readFile txt) = rejected m →
  ∃ o' s',
    run env l (process dirname) o0 s = (thrown m, o', s') ∧
    status o' = error ∧ this_error o' = Some m ∧
    steps o' !! "transcription" =
      Some (mkStep error (with_error "Failed to read transcript file")) ∧
    step_of o' "summary" = Some pending ∧
    transcription (results o') = None ∧
    issued_by l (is_spawn_of "ollama") s' = issued_by l (is_spawn_of "ollama") s ∧
    written_files l s' = written_files l s.
Proof.
  intros Hc Hw Hr. rewrite run_process. simpl processId.
  rewrite run_conversion_ok by done.
  rewrite run_transcribeAudio. unfold converted. object_simpl.
  destruct (answer env ChildResult (whisper_spawn dirname wav)) as [code ? ?|?];
    [|done].
  simpl in Hw. rewrite Hw, Hr. unfold caught. object_simpl.
  eexists _, _. split; [reflexivity|].
  split_and!; try (by read_step); try (by read_field).
  - repeat first [rewrite issued_by_jobs_set | rewrite issued_by_awaited].
    rewrite !andb_false_r. lia.
  - unfold written_files.
    repeat first [rewrite issued_awaited | rewrite issued_jobs_set].
    rewrite !omap_app. simpl. rewrite !bool_decide_true by done.
    by rewrite !app_nil_r.
Qed.

(** When the transcript has been read but cannot be saved under
    [transcripts/], the job halts as well, unlike a summary that
    cannot be saved.  The transcription step, already [completed], is
    set to [error], with the message of a transcript that could not
    be read; the transcription stays recorded in [results]; ollama
    is not started, and the text file of whisper-cli is not
    unlinked. *)
Theorem transcript_save_failure_halts raw m :
  conversion_succeeds env id file →
  exit_zero (answer env _ (whisper_spawn dirname wav)) = true →
  answer env _ (fs_readFile txt) = fulfilled raw →
  answer env _ (fs_writeFile transcript_path (JS.trim raw)) = rejected m →
  ∃ o' s',
    run env l (process dirname) o0 s = (thrown m, o', s') ∧
    status o' = error ∧ this_error o' = Some m ∧
    steps o' !! "transcription" =
      Some (mkStep error (with_error "Failed to read transcript file")) ∧
    step_of o' "summary" = Some pending ∧
    transcription (results o') = Some (JS.trim raw) ∧
    written_files l s' = written_files l s ++ [(transcript_path, JS.trim raw)] ∧
    issued_by l (is_spawn_of "ollama") s' = issued_by l (is_spawn_of "ollama") s ∧
    issued_by l (is_unlink_of txt) s' = issued_by l (is_unlink_of txt) s.
Proof.
  intros Hc Hw Hr Hs. unfold transcript_iso in Hs. rewrite run_process. simpl processId.
  rewrite run_conversion_ok by done.
  rewrite run_transcribeAudio. unfold converted. object_simpl.
  destruct (answer env ChildResult (whisper_spawn dirname wav)) as [code ? ?|?];
    [|done].
  simpl in Hw. rewrite Hw, Hr. cbv zeta. rewrite Hs. unfold caught. object_simpl.
  eexists _, _. split; [reflexivity|].
  split_and!; try (by read_step); try (by read_field).
  - unfold written_files.
    repeat first [rewrite issued_awaited | rewrite issued_jobs_set].
    rewrite !omap_app. simpl. rewrite !bool_decide_true by done.
    by rewrite !app_nil_r.
  - repeat first [rewrite issued_by_jobs_set | rewrite issued_by_awaited].
    rewrite !andb_false_r. lia.
  - repeat first [rewrite issued_by_jobs_set | rewrite issued_by_awaited].
    cbn [is_unlink_of event_of projT2 ffmpeg_spawn whisper_spawn].
    rewrite !andb_false_r. lia.
Qed.

End TranscriptionFails.

Lemma transcription_failure_halts_witness :
  ∃ m o' s',
    run (scripted whisper_exits_1) 0 (process "/srv/app")
        (new_AudioProcessor "job-1" "uploads/u_meeting.m4a" acme) nothing_shared =
      (thrown m, o', s') ∧
    status o' = error ∧ this_error o' = Some m ∧
    step_of o' "conversion" = Some completed ∧
    step_of o' "transcription" = Some error ∧
    step_of o' "summary" = Some pending ∧
    step_of o' "hubspot" = Some pending ∧
    transcription (results o') = None ∧
    issued_by 0 (is_spawn_of "ollama") s' = 0 ∧
    written_files 0 s' = [].
Proof.
  apply (transcription_failure_halts "/srv/app" (scripted whisper_exits_1) 0
           "job-1" "uploads/u_meeting.m4a" acme nothing_shared); reflexivity.
Defined.

Lemma transcript_read_failure_halts_witness :
  ∃ o' s',
    run (scripted transcript_missing) 0 (process "/srv/app")
        (new_AudioProcessor "job-1" "uploads/u_meeting.m4a" acme) nothing_shared =
      (thrown "ENOENT: no such file or directory", o', s') ∧
    status o' = error ∧
    this_error o' = Some "ENOENT: no such file or directory" ∧
    steps o' !! "transcription" =
      Some (mkStep error (with_error "Failed to read transcript file")) ∧
    step_of o' "summary" = Some pending ∧
    transcription (results o') = None ∧
    issued_by 0 (is_spawn_of "ollama") s' = 0 ∧
    written_files 0 s' = [].
Proof.
  apply (transcript_read_failure_halts "/srv/app" (scripted transcript_missing) 0
           "job-1" "uploads/u_meeting.m4a" acme nothing_shared
           "ENOENT: no such file or directory"); reflexivity.
Defined.

Lemma transcript_save_failure_halts_witness :
  ∃ o' s',
    run (scripted transcripts_read_only) 0 (process "/srv/app")
        (new_AudioProcessor "job-1" "uploads/u_meeting.m4a" acme) nothing_shared =
      (thrown "EACCES", o', s') ∧
    status o' = error ∧ this_error o' = Some "EACCES" ∧
    steps o' !! "transcription" =
      Some (mkStep error (with_error "Failed to read transcript file")) ∧
    step_of o' "summary" = Some pending ∧
    transcription (results o') = Some "HELLO" ∧
    written_files 0 s' =
      [("transcripts/transcript_2024-05-06T07-08-09_Acme---Co_123.txt", "HELLO")] ∧
    issued_by 0 (is_spawn_of "ollama") s' = 0 ∧
    issued_by 0 (is_unlink_of "temp/job-1.wav.txt") s' = 0.
Proof.
  apply (transcript_save_failure_halts "/srv/app" (scripted transcripts_read_only) 0
           "job-1" "uploads/u_meeting.m4a" acme nothing_shared "HELLO" "EACCES");
    reflexivity.
Defined.

(** ** The handlers of submissions and status queries *)

Section Submission.

Context (dirname : string) (req : Request) (uuid : string) (σ : Server).

(** A submission without a file is refused with HTTP 400 and leaves
    no trace: no job is created and nothing is started.  A submission
    with a file is answered at once with the identifier drawn for it,
    while the job it has created and registered is in its conversion
    step: ffmpeg has been started on the upload, to write
    [temp/<id>.wav], and nothing else. *)
Theorem submission_reply :
  let σ1 := post_process_audio dirname req uuid σ in
  (req_file req = None →
   sent σ1 = sent σ ++ [json_error 400 "No audio file provided"] ∧
   heap σ1 = heap σ ∧ shared σ1 = shared σ ∧ tasks σ1 = tasks σ) ∧
  (∀ file, req_file req = Some file →
   let l := length (heap σ) in
   let md := request_metadata (req_body req) file (now (shared σ)) in
   sent σ1 = sent σ ++ [json_started uuid] ∧
   processingJobs (shared σ1) !! uuid = Some l ∧
   heap σ1 =
     heap σ ++ [put_step "conversion" processing no_data
                  (set_status processing
                     (new_AudioProcessor uuid (file_path file) md))] ∧
   issued (shared σ1) = issued (shared σ) ++
     [(l, event_of (ffmpeg_spawn (file_path file) (wavOutputPath uuid)))] ∧
   disk (shared σ1) = disk (shared σ) ∧
   ∃ k, tasks σ1 = tasks σ ++
          [mkTask l _ (ffmpeg_spawn (file_path file) (wavOutputPath uuid)) k]).
Proof.
  split.
  - intros Hfile. unfold post_process_audio. by rewrite Hfile.
  - intros file Hfile. unfold post_process_audio. rewrite Hfile.
    unfold start. simpl. rewrite list_lookup_middle by done. simpl.
    split_and!; try done.
    + by rewrite app_nil_r.
    + by rewrite lookup_insert_eq.
    + by rewrite insert_app_r_alt, Nat.sub_diag by done.
    + by eexists.
Qed.

End Submission.

Lemma submission_reply_witness :
  (let σ1 := post_process_audio "/srv/app" form_without_file "job-1" initial_server in
   sent σ1 = [json_error 400 "No audio file provided"] ∧
   heap σ1 = [] ∧ shared σ1 = shared initial_server ∧ tasks σ1 = []) ∧
  (let σ1 := submitted "/srv/app" in
   sent σ1 = [json_started "job-1"] ∧
   processingJobs (shared σ1) !! "job-1" = Some 0 ∧
   issued (shared σ1) =
     [(0, event_of (ffmpeg_spawn "uploads/u_meeting.m4a" "temp/job-1.wav"))] ∧
   length (tasks σ1) = 1).
Proof.
  destruct (submission_reply "/srv/app" form_without_file "job-1" initial_server)
    as [Hrefused _].
  destruct (submission_reply "/srv/app" form_asking_for_attach "job-1"
              (set_clock "2024-05-06T07:00:00.000Z" initial_server))
    as [_ Hstarted].
  split.
  - by apply Hrefused.
  - destruct (Hstarted (mkUploadedFile "uploads/u_meeting.m4a" "meeting.m4a") eq_refl)
      as (Hsent & Hreg & _ & Hiss & _ & k & Htasks).
    split_and!; [exact Hsent|exact Hreg|exact Hiss|].
    unfold submitted. by rewrite Htasks.
Defined.


(** A job that failed in its summary step has its transcription on
    record, and a status query does not give it out: the reply carries
    the error and no text. *)
Lemma failed_job_hides_transcription :
  let '(_, job, s) :=
    run (scripted blank_summary) 0 (process "/srv/app")
      (new_AudioProcessor "job-1" "uploads/u_meeting.m4a" acme) nothing_shared in
  transcription (results job) = Some "HELLO" ∧
  ∃ body,
    sent (get_status "job-1" (mkServer [job] s [] [] None)) = [json_status body] ∧
    response_status body = error ∧
    response_transcription body = None ∧
    response_summary body = None ∧
    response_error body = Some "Ollama failed with code 0".
Proof. vm_compute. split; [done|]. eexists. by split_and!. Qed.
